(** * Singularity Hub source: reference parser, manifest lookup, image fetch

    A shallow embedding of [src/pkg/build/sources/conveyorPacker_shub.go]
    and the properties of its natural-language specification.

    Go strings are byte sequences; they are modelled as [list ascii]
    (an [ascii] is exactly one byte).  Functions that can panic return an
    [outcome]; functions that touch the file system or the network thread a
    [World] and consult an [Env] of collaborators (packages that the file
    imports but does not define). *)

From Stdlib Require Import Ascii String Bool Arith ZArith Lia List.
From Stdlib Require Import Numbers.DecimalString.
Import ListNotations.

Set Implicit Arguments.

Local Open Scope list_scope.

(** ** Go strings *)

Definition gostring := list ascii.

(** A string literal of the source. *)
Definition str (s : string) : gostring := list_ascii_of_string s.

Definition byte_eqb (a b : ascii) : bool := Ascii.eqb a b.

Module strings.

(** [strings.Contains(s, sep)] for a one-byte [sep]. *)
Definition Contains (s : gostring) (sep : ascii) : bool :=
  existsb (byte_eqb sep) s.

(** [strings.Count(s, sep)] for a one-byte [sep]. *)
Definition Count (s : gostring) (sep : ascii) : nat :=
  length (filter (byte_eqb sep) s).

(** [strings.Split(s, sep)] for a one-byte [sep]: the pieces between the
    occurrences of [sep]; one more piece than there are occurrences. *)
Fixpoint Split (s : gostring) (sep : ascii) : list gostring :=
  match s with
  | [] => [[]]
  | c :: t =>
      if byte_eqb sep c then [] :: Split t sep
      else match Split t sep with
           | p :: ps => (c :: p) :: ps
           | [] => [[c]]
           end
  end.

(** [strings.SplitAfterN(s, sep, -1)] for a one-byte [sep]: as [Split],
    but every piece keeps the separator that ends it. *)
Fixpoint SplitAfter (s : gostring) (sep : ascii) : list gostring :=
  match s with
  | [] => [[]]
  | c :: t =>
      if byte_eqb sep c then [c] :: SplitAfter t sep
      else match SplitAfter t sep with
           | p :: ps => (c :: p) :: ps
           | [] => [[c]]
           end
  end.

(** [strings.SplitN(s, sep, 2)] for a one-byte [sep]: cut at the first
    occurrence only. *)
Fixpoint SplitN2 (s : gostring) (sep : ascii) : list gostring :=
  match s with
  | [] => [[]]
  | c :: t =>
      if byte_eqb sep c then [[]; t]
      else match SplitN2 t sep with
           | p :: ps => (c :: p) :: ps
           | [] => [[c]]
           end
  end.

(** [strings.Join(a, "")]. *)
Definition Join (a : list gostring) : gostring := concat a.

(** [strings.Compare(a, b) != 0]. *)
Definition differ (a b : gostring) : bool :=
  if list_eq_dec ascii_dec a b then false else true.

End strings.

(** ** Outcomes of Go code: a normal return or a run-time panic *)

(** The pointers that the file reads through. *)
Inductive pointer : Type :=
| cp_b            (* cp.b *)
| cp_manifest     (* cp.manifest *)
| the_tmpfile.    (* tmpfile, local to fetchImage *)

Inductive panic : Type :=
| SliceBounds                     (* slice bounds out of range *)
| IndexRange                      (* index out of range *)
| NilDereference (p : pointer).   (* invalid memory address or nil pointer dereference *)

Inductive outcome (A : Type) : Type :=
| Ret (a : A)
| Panic (p : panic).

Arguments Ret {A} a.
Arguments Panic {A} p.

Definition bind {A B} (m : outcome A) (k : A -> outcome B) : outcome B :=
  match m with
  | Ret a => k a
  | Panic p => Panic p
  end.

Notation "x <- m ;; k" := (bind m (fun x => k))
  (at level 61, m at next level, right associativity).
Notation "' p <- m ;; k" := (bind m (fun p => k))
  (at level 61, p pattern, m at next level, right associativity).

(** [a[i]] *)
Definition index {A} (a : list A) (i : nat) : outcome A :=
  match nth_error a i with
  | Some x => Ret x
  | None => Panic IndexRange
  end.

(** [s[n:]] *)
Definition slice_from {A} (s : list A) (n : nat) : outcome (list A) :=
  if n <=? length s then Ret (skipn n s) else Panic SliceBounds.

(** [a[:n]] *)
Definition slice_to {A} (a : list A) (n : nat) : outcome (list A) :=
  if n <=? length a then Ret (firstn n a) else Panic SliceBounds.

(** ** Regular expressions (package regexp)

    The fragment of the syntax that the pattern of [ShubParseReference]
    uses.  Every class and literal of that pattern is ASCII, so matching
    byte by byte agrees with matching rune by rune: a byte above 127 is in
    no class. *)

Module regexp.

Inductive class_item : Type :=
| One (c : ascii)              (* a single character *)
| Range (lo hi : ascii).       (* lo-hi *)

Inductive regex : Type :=
| Eps                                  (* the empty pattern *)
| Bol                                  (* ^ : at the beginning of the text *)
| Eol                                  (* $ : at the end of the text *)
| Lit (c : ascii)                      (* an escaped or plain character *)
| Class (cs : list class_item)         (* [...] *)
| Cat (r1 r2 : regex)                  (* r1r2 *)
| Group (r : regex)                    (* (r) *)
| Opt (r : regex)                      (* r? , prefer one *)
| Rep (r : regex) (lo hi : nat).       (* r{lo,hi} , prefer more *)

Definition item_mem (c : ascii) (i : class_item) : bool :=
  match i with
  | One d => byte_eqb d c
  | Range lo hi =>
      (nat_of_ascii lo <=? nat_of_ascii c) && (nat_of_ascii c <=? nat_of_ascii hi)
  end.

Definition class_mem (cs : list class_item) (c : ascii) : bool :=
  existsb (item_mem c) cs.

(** A position in the text: whether it is the beginning of the text, and
    the text that remains. *)
Definition config : Type := (bool * gostring)%type.

Section Repeat.
Variable f : config -> list config.

Fixpoint rep_rests (lo hi : nat) (c : config) {struct hi} : list config :=
  match hi with
  | 0 => if lo =? 0 then [c] else []
  | S hi' =>
      flat_map (rep_rests (pred lo) hi') (f c)
        ++ (if lo =? 0 then [c] else [])
  end.
End Repeat.

(** The positions at which a match of [r] that starts at [c] can end, in
    the order of preference of a backtracking matcher (which is the match
    Go's leftmost-first semantics selects). *)
Fixpoint rests (r : regex) (c : config) : list config :=
  match r with
  | Eps => [c]
  | Bol => if fst c then [c] else []
  | Eol => match snd c with [] => [c] | _ :: _ => [] end
  | Lit d =>
      match snd c with
      | x :: t => if byte_eqb d x then [(false, t)] else []
      | [] => []
      end
  | Class cs =>
      match snd c with
      | x :: t => if class_mem cs x then [(false, t)] else []
      | [] => []
      end
  | Cat r1 r2 => flat_map (rests r2) (rests r1 c)
  | Group r1 => rests r1 c
  | Opt r1 => rests r1 c ++ [c]
  | Rep r1 lo hi => rep_rests (rests r1) lo hi c
  end.

(** The leftmost match that starts at or after the position [(b, s)]. *)
Fixpoint find_from (re : regex) (b : bool) (s : gostring) : option gostring :=
  match rests re (b, s) with
  | (_, t) :: _ => Some (firstn (length s - length t) s)
  | [] =>
      match s with
      | [] => None
      | _ :: s' => find_from re false s'
      end
  end.

(** [re.FindString(s)]: the text of the leftmost match, or the empty
    string when there is none. *)
Definition FindString (re : regex) (s : gostring) : gostring :=
  match find_from re true s with
  | Some m => m
  | None => []
  end.

(** [re.MatchString(s)]: whether [s] contains a match. *)
Definition MatchString (re : regex) (s : gostring) : bool :=
  match find_from re true s with
  | Some _ => true
  | None => false
  end.

(** The concatenation of pattern pieces, as the source builds its pattern
    with [+]. *)
Definition pieces (rs : list regex) : regex := fold_right Cat Eps rs.

End regexp.

Import regexp.

(** ** The reference parser *)

Definition error : Type := gostring.

(** [const defaultRegistry] *)
Definition defaultRegistry : gostring := str "singularity-hub.org/api/container/".

(** [type ShubURI struct] *)
Record ShubURI : Type := mkShubURI {
  registry : gostring;
  user : gostring;
  container : gostring;
  tag : gostring;
  digest : gostring;
  defaultReg : bool
}.

(** The zero value of [ShubURI]. *)
Definition zeroURI : ShubURI := mkShubURI [] [] [] [] [] false.

Definition alnum : list class_item :=
  [Range "a" "z"; Range "A" "Z"; Range "0" "9"]%char.

(** [[-a-zA-Z0-9/]] *)
Definition registryChars : list class_item :=
  One "-"%char :: alnum ++ [One "/"%char].

(** [[-a-zA-Z0-9]] *)
Definition nameChars : list class_item := One "-"%char :: alnum.

(** [[-_.a-zA-Z0-9]] *)
Definition containerChars : list class_item :=
  (One "-" :: One "_" :: One "." :: alnum)%char.

(** [[a-f0-9]] *)
Definition digestChars : list class_item := [Range "a" "f"; Range "0" "9"]%char.

(** [([-a-zA-Z0-9/]{1,64}\/)?] *)
Definition registryRegexp : regex :=
  Opt (Group (Cat (Rep (Class registryChars) 1 64) (Lit "/"))).

(** [([-a-zA-Z0-9]{1,39}\/)] *)
Definition nameRegexp : regex :=
  Group (Cat (Rep (Class nameChars) 1 39) (Lit "/")).

(** [([-_.a-zA-Z0-9]{1,64})] *)
Definition containerRegexp : regex :=
  Group (Rep (Class containerChars) 1 64).

(** [(:[-_.a-zA-Z0-9]{1,64})?] *)
Definition tagRegexp : regex :=
  Opt (Group (Cat (Lit ":") (Rep (Class containerChars) 1 64))).

(** [(\@[a-f0-9]{32})?] *)
Definition digestRegexp : regex :=
  Opt (Group (Cat (Lit "@") (Rep (Class digestChars) 32 32))).

(** [^\/\/] + registryRegexp + nameRegexp + containerRegexp + tagRegexp +
    digestRegexp + [$] *)
Definition shubRegex : regex :=
  pieces [Bol; Lit "/"; Lit "/"; registryRegexp; nameRegexp; containerRegexp;
          tagRegexp; digestRegexp; Eol].

(** [fmt.Errorf("Source string is not a valid URI: %s", src)] *)
Definition invalidURI (src : gostring) : error :=
  str "Source string is not a valid URI: " ++ src.

(** [func ShubParseReference(src string) (uri ShubURI, err error)].
    The pattern is a constant that compiles, so the error branch of
    [regexp.Compile] is not taken. *)
Definition ShubParseReference (src : gostring) : outcome (ShubURI * option error) :=
  let uri := zeroURI in
  let found := FindString shubRegex src in
  if strings.differ src found then Ret (uri, Some (invalidURI src))
  else
    src <- slice_from src 2 ;;
    let pieces := strings.SplitAfter src "/" in
    let l := length pieces in
    '(uri, src) <-
      (if 2 <? l then
         reg <- slice_to pieces (l - 2) ;;
         usr <- index pieces (l - 2) ;;
         last <- index pieces (l - 1) ;;
         Ret (mkShubURI (strings.Join reg) usr (container uri) (tag uri)
                        (digest uri) false, last)
       else if l =? 2 then
         usr <- index pieces (l - 2) ;;
         last <- index pieces (l - 1) ;;
         Ret (mkShubURI defaultRegistry usr (container uri) (tag uri)
                        (digest uri) true, last)
       else Ret (uri, src)) ;;
    '(uri, src) <-
      (if strings.Contains src "@" then
         let pieces := strings.Split src "@" in
         p1 <- index pieces 1 ;;
         p0 <- index pieces 0 ;;
         Ret (mkShubURI (registry uri) (user uri) (container uri) (tag uri)
                        ("@"%char :: p1) (defaultReg uri), p0)
       else Ret (uri, src)) ;;
    '(uri, src) <-
      (if strings.Contains src ":" then
         let pieces := strings.Split src ":" in
         p1 <- index pieces 1 ;;
         p0 <- index pieces 0 ;;
         Ret (mkShubURI (registry uri) (user uri) (container uri)
                        (":"%char :: p1) (digest uri) (defaultReg uri), p0)
       else Ret (uri, src)) ;;
    Ret (mkShubURI (registry uri) (user uri) src (tag uri) (digest uri)
                   (defaultReg uri), None).

(** [ShubURI.String] *)
Definition String (s : ShubURI) : gostring :=
  registry s ++ user s ++ container s ++ tag s ++ digest s.


(** ** The world outside: file system, network, log *)

(** [type shubAPIResponse struct] *)
Record shubAPIResponse : Type := mkManifest {
  Image : gostring;
  Name : gostring;
  Tag : gostring;
  Version : gostring
}.

(** What the file uses of [sytypes.Bundle]: its [Path]. *)
Record Bundle : Type := mkBundle { Path : gostring }.

(** What the file uses of [sytypes.Definition]: its [Header] map.  A Go map
    read at a missing key gives the zero value, here the empty string. *)
Record sytypes_Definition : Type := mkDefinition { Header : list (gostring * gostring) }.

Fixpoint map_get (m : list (gostring * gostring)) (k : gostring) : gostring :=
  match m with
  | [] => []
  | (k', v) :: m' => if strings.differ k k' then map_get m' k else v
  end.

(** What the file reads of an [http.Response].  [Body] is what the stream
    delivers and [BodyErr] the error, if any, that ends it. *)
Record Response : Type := mkResponse {
  Status : gostring;
  StatusCode : Z;
  ContentLength : Z;
  Body : gostring;
  BodyErr : option error
}.

(** [url.URL{Scheme, Host, Path}] *)
Record URL : Type := mkURL { Scheme : gostring; Host : gostring; UPath : gostring }.

(** [http.Request]: method, address and headers. *)
Record Request : Type := mkRequest {
  Method : gostring;
  Address : gostring;
  Headers : list (gostring * gostring)
}.

Inductive node : Type :=
| Dir
| File (data : gostring).

Record World : Type := mkWorld {
  files : list (gostring * node);   (* the file system: path and what is there *)
  requests : list gostring;         (* the addresses requested so far *)
  fatals : list gostring            (* messages given to [sylog.Fatalf] *)
}.

(** The collaborators that the file calls and does not define.  Each
    returns what its Go signature returns: a value and an error, as a sum
    when only one of them is meaningful. *)
Record Env (LP : Type) : Type := mkEnv {
  (* sytypes.NewBundle(prefix): the bundle pointer and the error *)
  NewBundle : gostring -> World -> option Bundle * option error;
  (* ioutil.TempFile(dir, prefix): the name of the file created, or the error *)
  TempFile : World -> gostring -> gostring -> gostring + error;
  (* http.Get(url): the response, or the error *)
  httpGet : gostring -> Response + error;
  (* http.NewRequest(method, url, nil): the request, or the error *)
  NewRequest : gostring -> gostring -> Request + error;
  (* sc.Do(req): the response, or the error *)
  Do : Request -> Response + error;
  (* json.Unmarshal(body, &p): the new value of p, and the error *)
  jsonUnmarshal : gostring -> option shubAPIResponse ->
                  option shubAPIResponse * option error;
  (* getLocalPacker(path, b): the packer and the error *)
  getLocalPacker : gostring -> option Bundle -> World -> option LP * option error;
  (* useragent.Value *)
  useragentValue : gostring
}.

(** [type ShubConveyorPacker struct] *)
Record ShubConveyorPacker (LP : Type) : Type := mkPacker {
  recipe : sytypes_Definition;
  srcURI : ShubURI;
  tmpfile : gostring;
  manifest : option shubAPIResponse;   (* a pointer; nil is None *)
  b : option Bundle;                   (* a pointer; nil is None *)
  localPacker : option LP
}.

(** The zero value of [ShubConveyorPacker], as [&ShubConveyorPacker{}]
    gives it. *)
Definition zeroPacker (LP : Type) : ShubConveyorPacker LP :=
  mkPacker (mkDefinition []) zeroURI [] None None None.

(** [p.field] through the pointer [p], whose value is [v]. *)
Definition deref {A} (p : pointer) (v : option A) : outcome A :=
  match v with
  | Some a => Ret a
  | None => Panic (NilDereference p)
  end.

Fixpoint is_prefix (p s : gostring) : bool :=
  match p, s with
  | [], _ => true
  | _ :: _, [] => false
  | a :: p', c :: s' => byte_eqb a c && is_prefix p' s'
  end.

(** Whether [q] is [p] or lies below the directory [p]. *)
Definition under (p q : gostring) : bool :=
  negb (strings.differ p q) || is_prefix (p ++ ["/"%char]) q.

(** [os.RemoveAll(path)]: removes [path] and everything below it; a path
    that does not exist, the empty path included, is not an error. *)
Definition RemoveAll (path : gostring) (fs : list (gostring * node)) :
  list (gostring * node) :=
  match path with
  | [] => fs
  | _ :: _ => filter (fun e => negb (under path (fst e))) fs
  end.

(** Writing through an [os.File] at a path: the file there gets this content. *)
Fixpoint write_file (fs : list (gostring * node)) (name data : gostring) :
  list (gostring * node) :=
  match fs with
  | [] => [(name, File data)]
  | (n, x) :: fs' =>
      if strings.differ name n then (n, x) :: write_file fs' name data
      else (n, File data) :: fs'
  end.

Fixpoint read_file (fs : list (gostring * node)) (name : gostring) : option node :=
  match fs with
  | [] => None
  | (n, x) :: fs' => if strings.differ name n then read_file fs' name else Some x
  end.

(** [%v] of an integer. *)
Definition itoa (z : Z) : gostring :=
  list_ascii_of_string (NilZero.string_of_int (Z.to_int z)).

(** [fmt.Errorf("Image received is not the right size. Supposed to be: %v  Actually: %v", want, got)] *)
Definition sizeError (want got : Z) : error :=
  str "Image received is not the right size. Supposed to be: " ++ itoa want
    ++ str "  Actually: " ++ itoa got.

(** [url.String()] for a URL with a scheme, a host and a relative path.
    The path is written as it is: the bytes that [ShubParseReference]
    admits need no escaping. *)
Definition URL_String (u : URL) : gostring :=
  Scheme u ++ str "://" ++ Host u
    ++ match UPath u with
       | [] => []
       | c :: _ => if byte_eqb "/" c then [] else ["/"%char]
       end
    ++ UPath u.

(** Modelled from the spec: [sylog.Fatalf], of which the source has only
    the calls, is a sink for a formatted message; the caller goes on to its
    [return]. *)
Definition Fatalf (prefix : gostring) (err : error) (w : World) : World :=
  mkWorld (files w) (requests w) (fatals w ++ [prefix ++ err]).

Section Acquisition.
Variable LP : Type.
Variable E : Env LP.

Let Packer : Type := ShubConveyorPacker LP.

(** The statements of [getManifest] after the status check: read the body,
    decode it into [cp.manifest], log the image address. *)
Definition decodeManifest (cp : Packer) (res : Response) (w : World) :
  outcome (Packer * option error * World) :=
  match BodyErr res with
  | Some e => Ret (cp, Some e, w)
  | None =>
      let '(m, err) := jsonUnmarshal E (Body res) (manifest cp) in
      let cp := mkPacker (recipe cp) (srcURI cp) (tmpfile cp) m (b cp)
                         (localPacker cp) in
      (* sylog.Debugf("manifest: %v\n", cp.manifest.Image), before err is read *)
      _ <- deref cp_manifest (manifest cp) ;;
      Ret (cp, err, w)
  end.

(** [ShubConveyorPacker.getManifest] *)
Definition getManifest (cp : Packer) (w : World) :
  outcome (Packer * option error * World) :=
  let err : option error := None in
  if negb (defaultReg (srcURI cp)) then Ret (cp, err, w)
  else
    let httpAddr := str "www." ++ String (srcURI cp) in
    host <- index (strings.Split httpAddr "/") 0 ;;
    path <- index (strings.SplitN2 httpAddr "/") 1 ;;
    let url := mkURL (str "https") host path in
    match NewRequest E (str "GET") (URL_String url) with
    | inr e => Ret (cp, Some e, w)
    | inl req =>
        (* req.Header.Set("User-Agent", useragent.Value) *)
        let req := mkRequest (Method req) (Address req)
                     ((str "User-Agent", useragentValue E) :: Headers req) in
        let w := mkWorld (files w) (requests w ++ [Address req]) (fatals w) in
        match Do E req with
        | inr e => Ret (cp, Some e, w)
        | inl res =>
            if negb (StatusCode res =? 200)%Z then Ret (cp, Some (Status res), w)
            else decodeManifest cp res w
        end
    end.

(** [ShubConveyorPacker.fetchImage].  [io.Copy] writes to the file what the
    stream delivers and returns the count of it and the error of the
    stream; the writes themselves are taken to succeed. *)
Definition fetchImage (cp : Packer) (w : World) :
  outcome (Packer * option error * World) :=
  bundle <- deref cp_b (b cp) ;;
  let created := TempFile E w (Path bundle) (str "shub-container") in
  let w := match created with
           | inl name => mkWorld (write_file (files w) name []) (requests w) (fatals w)
           | inr _ => w
           end in
  (* sylog.Debugf(..., tmpfile.Name()), before err is read *)
  name <- match created with
          | inl name => Ret name
          | inr _ => Panic (NilDereference the_tmpfile)
          end ;;
  match created with
  | inr e => Ret (cp, Some e, w)
  | inl _ =>
      m <- deref cp_manifest (manifest cp) ;;
      let w := mkWorld (files w) (requests w ++ [Image m]) (fatals w) in
      match httpGet E (Image m) with
      | inr e => Ret (cp, Some e, w)
      | inl resp =>
          (* io.Copy(tmpfile, resp.Body) *)
          let w := mkWorld (write_file (files w) name (Body resp)) (requests w)
                           (fatals w) in
          let bytesWritten := Z.of_nat (length (Body resp)) in
          match BodyErr resp with
          | Some e => Ret (cp, Some e, w)
          | None =>
              if negb (bytesWritten =? ContentLength resp)%Z
              then Ret (cp, Some (sizeError (ContentLength resp) bytesWritten), w)
              else Ret (mkPacker (recipe cp) (srcURI cp) name (manifest cp) (b cp)
                                 (localPacker cp), None, w)
          end
      end
  end.

(** [ShubConveyorPacker.Get] *)
Definition Get (cp : Packer) (rcp : sytypes_Definition) (w : World) :
  outcome (Packer * option error * World) :=
  let cp := mkPacker rcp (srcURI cp) (tmpfile cp) (manifest cp) (b cp)
                     (localPacker cp) in
  let src := str "//" ++ map_get (Header rcp) (str "from") in
  '(uri, err) <- ShubParseReference src ;;
  let cp := mkPacker (recipe cp) uri (tmpfile cp) (manifest cp) (b cp)
                     (localPacker cp) in
  match err with
  | Some e => Ret (cp, Some e, Fatalf (str "Invalid shub URI: ") e w)
  | None =>
      let '(bundle, err) := NewBundle E (str "sbuild-shub") w in
      let cp := mkPacker (recipe cp) (srcURI cp) (tmpfile cp) (manifest cp) bundle
                         (localPacker cp) in
      let w := match bundle with
               | Some x => mkWorld (files w ++ [(Path x, Dir)]) (requests w) (fatals w)
               | None => w
               end in
      match err with
      | Some e => Ret (cp, Some e, w)
      | None =>
          '(cp, err, w) <- getManifest cp w ;;
          match err with
          | Some e =>
              Ret (cp, Some e, Fatalf (str "Failed to get manifest from Shub: ") e w)
          | None =>
              '(cp, err, w) <- fetchImage cp w ;;
              match err with
              | Some e =>
                  Ret (cp, Some e, Fatalf (str "Failed to get image from Shub: ") e w)
              | None =>
                  let '(lp, err) := getLocalPacker E (tmpfile cp) (b cp) w in
                  Ret (mkPacker (recipe cp) (srcURI cp) (tmpfile cp) (manifest cp)
                                (b cp) lp, err, w)
              end
          end
      end
  end.

(** [ShubConveyorPacker.CleanUp]; the error that [os.RemoveAll]
    returns is dropped. *)
Definition CleanUp (cp : Packer) (w : World) : outcome World :=
  bundle <- deref cp_b (b cp) ;;
  Ret (mkWorld (RemoveAll (Path bundle) (files w)) (requests w) (fatals w)).

End Acquisition.

(** ** The words of the specification *)

(** A run of [lo] to [hi] characters of a class. *)
Definition run (cs : list class_item) (lo hi : nat) (u : gostring) : Prop :=
  lo <= length u <= hi /\ Forall (fun c => class_mem cs c = true) u.

(** The strings that the pattern of [ShubParseReference] describes, written
    out piece by piece: the registry part is one optional run of 1 to 64
    characters, slashes among them, and a closing slash. *)
Definition shub_shape (src : gostring) : Prop :=
  exists reg name cont tg dg,
    src = str "//" ++ reg ++ name ++ cont ++ tg ++ dg /\
    (reg = [] \/ exists r, reg = r ++ ["/"%char] /\ run registryChars 1 64 r) /\
    (exists n, name = n ++ ["/"%char] /\ run nameChars 1 39 n) /\
    run containerChars 1 64 cont /\
    (tg = [] \/ exists t, tg = ":"%char :: t /\ run containerChars 1 64 t) /\
    (dg = [] \/ exists d, dg = "@"%char :: d /\ run digestChars 32 32 d).

(** The grammar in the words of the specification:
    [(registrySegment{1,64}/)* ownerSegment{1,39}/ containerSegment{1,64}
     (:tagSegment{1,64})? (@digest{32 hex})?] after the two-character
    prefix, registry and owner segments over [[-a-zA-Z0-9]], container and
    tag segments over [[-_.a-zA-Z0-9]]. *)
Definition spec_grammar (src : gostring) : Prop :=
  exists segs owner cont tg dg,
    src = str "//" ++ concat (map (fun g => g ++ ["/"%char]) segs)
            ++ (owner ++ ["/"%char]) ++ cont ++ tg ++ dg /\
    Forall (run nameChars 1 64) segs /\
    run nameChars 1 39 owner /\
    run containerChars 1 64 cont /\
    (tg = [] \/ exists t, tg = ":"%char :: t /\ run containerChars 1 64 t) /\
    (dg = [] \/ exists d, dg = "@"%char :: d /\ run digestChars 32 32 d).

(** The canonical form of a reference: the input after its two-character
    prefix, with the default registry in front when the input names no
    registry, that is when it has the one slash that ends the owner. *)
Definition canonical (src : gostring) : gostring :=
  let rest := skipn 2 src in
  if strings.Count rest "/" =? 1 then defaultRegistry ++ rest else rest.

(** The locator that the pieces of a reference make. *)
Definition locator (reg name cont tg dg : gostring) : ShubURI :=
  match reg with
  | [] => mkShubURI defaultRegistry name cont tg dg true
  | _ :: _ => mkShubURI reg name cont tg dg false
  end.

(** [run], as a test. *)
Definition runb (cs : list class_item) (lo hi : nat) (u : gostring) : bool :=
  (lo <=? length u) && (length u <=? hi) && forallb (class_mem cs) u.

(** ** Sample inputs *)

Definition hex32 : gostring := str "0123456789abcdef0123456789abcdef".

(** The reference of the specification's example, for a digest [h]. *)
Definition full_reference (h : gostring) : gostring :=
  str "//host/path/owner/container:mytag@" ++ h.

Definition full_locator (h : gostring) : ShubURI :=
  mkShubURI (str "host/path/") (str "owner/") (str "container") (str ":mytag")
            ("@"%char :: h) false.

Definition plain_reference : gostring := str "//owner/container".

Definition plain_locator : ShubURI :=
  mkShubURI defaultRegistry (str "owner/") (str "container") [] [] true.

(** A reference with two registry segments of forty characters each. *)
Definition long_reference : gostring :=
  str "//" ++ repeat "a"%char 40 ++ str "/" ++ repeat "b"%char 40
    ++ str "/owner/container".

(** Whether [sub] occurs in [s]. *)
Fixpoint occurs (sub s : gostring) : bool :=
  is_prefix sub s ||
  match s with
  | [] => false
  | _ :: s' => occurs sub s'
  end.

(** The status line of a response begins with its code, as package http
    reads both from the same line. *)
Definition status_of_code (res : Response) : Prop :=
  is_prefix (itoa (StatusCode res)) (Status res) = true.

(** The address that [getManifest] asks for a locator of the default
    registry. *)
Definition manifestAddress (uri : ShubURI) : gostring :=
  str "https://www.singularity-hub.org/api/container/"
    ++ user uri ++ container uri ++ tag uri ++ digest uri.

(** The request that [getManifest] sends, made from the one that
    [http.NewRequest] returns. *)
Definition withUserAgent {LP} (E : Env LP) (req : Request) : Request :=
  mkRequest (Method req) (Address req)
            ((str "User-Agent", useragentValue E) :: Headers req).

Definition logRequest (w : World) (address : gostring) : World :=
  mkWorld (files w) (requests w ++ [address]) (fatals w).

(** ** A sample world *)

Definition sampleManifest : shubAPIResponse :=
  mkManifest (str "https://example.org/image.simg") (str "owner/container")
             (str "latest") (str "1").

Definition sampleBundle : Bundle := mkBundle (str "/tmp/sbuild-shub-1").

(** Collaborators that succeed: the registry answers [reg], the image
    server answers [img]. *)
Definition sampleEnv (reg img : Response) : Env unit :=
  mkEnv
    (fun _ _ => (Some sampleBundle, None))
    (fun _ dir prefix => inl (dir ++ str "/" ++ prefix ++ str "1"))
    (fun _ => inl img)
    (fun method address => inl (mkRequest method address []))
    (fun _ => inl reg)
    (fun _ _ => (Some sampleManifest, None))
    (fun _ _ _ => (Some tt, None))
    (str "Singularity").

Definition emptyWorld : World := mkWorld [] [] [].

(** A world with a workspace and a file in it, and a file elsewhere. *)
Definition sampleWorld : World :=
  mkWorld [(str "/tmp/sbuild-shub-1", Dir);
           (str "/tmp/sbuild-shub-1/shub-container1", File (str "image"));
           (str "/tmp/other", File (str "kept"))] [] [].

Definition ok200 : Response :=
  mkResponse (str "200 OK") 200 2 (str "{}") None.

Definition created201 : Response :=
  mkResponse (str "201 Created") 201 2 (str "{}") None.

Definition notFound404 : Response :=
  mkResponse (str "404 Not Found") 404 0 [] None.

(** An image of 80 bytes announced as 100, and one announced as it is. *)
Definition shortImage : Response :=
  mkResponse (str "200 OK") 200 100 (repeat "x"%char 80) None.

Definition wholeImage : Response :=
  mkResponse (str "200 OK") 200 100 (repeat "x"%char 100) None.

(** An orchestrator that has parsed [//owner/container]. *)
Definition plainPacker : ShubConveyorPacker unit :=
  mkPacker (mkDefinition [(str "from", str "owner/container")]) plain_locator
           [] None None None.

(** An orchestrator that has parsed the full reference and holds a
    workspace. *)
Definition customPacker : ShubConveyorPacker unit :=
  mkPacker (mkDefinition []) (full_locator hex32) [] None (Some sampleBundle) None.

(** An orchestrator ready to fetch. *)
Definition readyPacker : ShubConveyorPacker unit :=
  mkPacker (mkDefinition []) plain_locator [] (Some sampleManifest)
           (Some sampleBundle) None.

Definition customRecipe : sytypes_Definition :=
  mkDefinition [(str "from", skipn 2 (full_reference hex32))].

Definition plainRecipe : sytypes_Definition :=
  mkDefinition [(str "from", str "owner/container")].

(** The request for the manifest of [//owner/container], as
    [http.NewRequest] of the sample world returns it. *)
Definition sampleRequest : Request :=
  mkRequest (str "GET") (manifestAddress plain_locator) [].

(** The temporary file of the sample world. *)
Definition sampleTemp : gostring := str "/tmp/sbuild-shub-1/shub-container1".

(** Sample worlds in which one collaborator fails. *)

(** [http.NewRequest] refuses the address. *)
Definition noRequestEnv : Env unit :=
  mkEnv (NewBundle (sampleEnv ok200 wholeImage))
        (TempFile (sampleEnv ok200 wholeImage))
        (httpGet (sampleEnv ok200 wholeImage))
        (fun _ _ => inr (str "invalid URL"))
        (Do (sampleEnv ok200 wholeImage))
        (jsonUnmarshal (sampleEnv ok200 wholeImage))
        (getLocalPacker (sampleEnv ok200 wholeImage))
        (useragentValue (sampleEnv ok200 wholeImage)).

(** The network is down. *)
Definition offlineEnv : Env unit :=
  mkEnv (NewBundle (sampleEnv ok200 wholeImage))
        (TempFile (sampleEnv ok200 wholeImage))
        (fun _ => inr (str "timeout"))
        (NewRequest (sampleEnv ok200 wholeImage))
        (fun _ => inr (str "timeout"))
        (jsonUnmarshal (sampleEnv ok200 wholeImage))
        (getLocalPacker (sampleEnv ok200 wholeImage))
        (useragentValue (sampleEnv ok200 wholeImage)).

(** The registry answers with a body that is not JSON: [json.Unmarshal]
    returns its error and leaves the pointer as it was. *)
Definition garbledEnv : Env unit :=
  mkEnv (NewBundle (sampleEnv ok200 wholeImage))
        (TempFile (sampleEnv ok200 wholeImage))
        (httpGet (sampleEnv ok200 wholeImage))
        (NewRequest (sampleEnv ok200 wholeImage))
        (Do (sampleEnv ok200 wholeImage))
        (fun _ p => (p, Some (str "invalid character")))
        (getLocalPacker (sampleEnv ok200 wholeImage))
        (useragentValue (sampleEnv ok200 wholeImage)).

(** The temporary file cannot be created. *)
Definition fullDiskEnv : Env unit :=
  mkEnv (NewBundle (sampleEnv ok200 wholeImage))
        (fun _ _ _ => inr (str "no space left on device"))
        (httpGet (sampleEnv ok200 wholeImage))
        (NewRequest (sampleEnv ok200 wholeImage))
        (Do (sampleEnv ok200 wholeImage))
        (jsonUnmarshal (sampleEnv ok200 wholeImage))
        (getLocalPacker (sampleEnv ok200 wholeImage))
        (useragentValue (sampleEnv ok200 wholeImage)).

(** An image whose stream breaks after 80 bytes. *)
Definition brokenImage : Response :=
  mkResponse (str "200 OK") 200 100 (repeat "x"%char 80)
             (Some (str "unexpected EOF")).

(** A locator that no parse gives: of the default registry, without a
    slash in it. *)
Definition bareLocator : ShubURI := mkShubURI [] [] (str "container") [] [] true.

Definition barePacker : ShubConveyorPacker unit :=
  mkPacker (mkDefinition []) bareLocator [] None None None.

(** The orchestrator and the world after the acquisition of
    [//owner/container] in the sample world. *)
Definition fetchedPacker : ShubConveyorPacker unit :=
  mkPacker plainRecipe plain_locator sampleTemp (Some sampleManifest)
           (Some sampleBundle) (Some tt).

Definition fetchedWorld : World :=
  mkWorld [(str "/tmp/sbuild-shub-1", Dir);
           (sampleTemp, File (Body wholeImage))]
          [manifestAddress plain_locator; Image sampleManifest] [].

(** ** Lemmas on Go strings *)

Lemma byte_eqb_eq (a c : ascii) : byte_eqb a c = true <-> a = c.
Proof. unfold byte_eqb. apply Ascii.eqb_eq. Qed.

Lemma byte_eqb_refl (a : ascii) : byte_eqb a a = true.
Proof. apply byte_eqb_eq. reflexivity. Qed.

Lemma byte_eqb_neq (a c : ascii) : byte_eqb a c = false <-> a <> c.
Proof.
  rewrite <- byte_eqb_eq. destruct (byte_eqb a c); split; congruence.
Qed.

Lemma differ_false (a c : gostring) : strings.differ a c = false <-> a = c.
Proof.
  unfold strings.differ. destruct (list_eq_dec ascii_dec a c); split; congruence.
Qed.

Lemma differ_true (a c : gostring) : strings.differ a c = true <-> a <> c.
Proof.
  unfold strings.differ. destruct (list_eq_dec ascii_dec a c); split; congruence.
Qed.

Lemma Contains_In (s : gostring) (sep : ascii) :
  strings.Contains s sep = true <-> In sep s.
Proof.
  unfold strings.Contains. rewrite existsb_exists. split.
  - intros (x & Hx & He). apply byte_eqb_eq in He. now subst.
  - intros H. exists sep. split; [assumption | apply byte_eqb_refl].
Qed.

Lemma Contains_notin (s : gostring) (sep : ascii) :
  ~ In sep s -> strings.Contains s sep = false.
Proof.
  intros H. destruct (strings.Contains s sep) eqn:E; [|reflexivity].
  apply Contains_In in E. contradiction.
Qed.

Lemma Count_app (u v : gostring) (sep : ascii) :
  strings.Count (u ++ v) sep = strings.Count u sep + strings.Count v sep.
Proof. unfold strings.Count. now rewrite filter_app, length_app. Qed.

Lemma Count_notin (s : gostring) (sep : ascii) :
  ~ In sep s -> strings.Count s sep = 0.
Proof.
  unfold strings.Count. induction s as [|c s IH]; simpl; intros H; [reflexivity|].
  destruct (byte_eqb sep c) eqn:E.
  - apply byte_eqb_eq in E. subst. exfalso. apply H. now left.
  - apply IH. intros Hin. apply H. now right.
Qed.

Lemma Count_cons_sep (s : gostring) (sep : ascii) :
  strings.Count (sep :: s) sep = S (strings.Count s sep).
Proof. unfold strings.Count. simpl. now rewrite byte_eqb_refl. Qed.

Lemma Split_nonempty (s : gostring) (sep : ascii) : strings.Split s sep <> [].
Proof.
  destruct s as [|c s]; simpl; [discriminate|].
  destruct (byte_eqb sep c); [discriminate|].
  destruct (strings.Split s sep); discriminate.
Qed.

Lemma SplitAfter_nonempty (s : gostring) (sep : ascii) :
  strings.SplitAfter s sep <> [].
Proof.
  destruct s as [|c s]; simpl; [discriminate|].
  destruct (byte_eqb sep c); [discriminate|].
  destruct (strings.SplitAfter s sep); discriminate.
Qed.

Lemma Split_notin (s : gostring) (sep : ascii) :
  ~ In sep s -> strings.Split s sep = [s].
Proof.
  induction s as [|c s IH]; simpl; intros H; [reflexivity|].
  destruct (byte_eqb sep c) eqn:E.
  - apply byte_eqb_eq in E. subst. exfalso. apply H. now left.
  - rewrite IH; [reflexivity|]. intros Hin. apply H. now right.
Qed.

Lemma Split_at (u v : gostring) (sep : ascii) :
  ~ In sep u -> strings.Split (u ++ sep :: v) sep = u :: strings.Split v sep.
Proof.
  induction u as [|c u IH]; simpl; intros H.
  - now rewrite byte_eqb_refl.
  - destruct (byte_eqb sep c) eqn:E.
    + apply byte_eqb_eq in E. subst. exfalso. apply H. now left.
    + rewrite IH; [reflexivity|]. intros Hin. apply H. now right.
Qed.

Lemma SplitAfter_notin (s : gostring) (sep : ascii) :
  ~ In sep s -> strings.SplitAfter s sep = [s].
Proof.
  induction s as [|c s IH]; simpl; intros H; [reflexivity|].
  destruct (byte_eqb sep c) eqn:E.
  - apply byte_eqb_eq in E. subst. exfalso. apply H. now left.
  - rewrite IH; [reflexivity|]. intros Hin. apply H. now right.
Qed.

Lemma SplitAfter_at (u v : gostring) (sep : ascii) :
  ~ In sep u ->
  strings.SplitAfter (u ++ sep :: v) sep = (u ++ [sep]) :: strings.SplitAfter v sep.
Proof.
  induction u as [|c u IH]; simpl; intros H.
  - now rewrite byte_eqb_refl.
  - destruct (byte_eqb sep c) eqn:E.
    + apply byte_eqb_eq in E. subst. exfalso. apply H. now left.
    + rewrite IH; [reflexivity|]. intros Hin. apply H. now right.
Qed.

(** Whatever ends in a separator splits into pieces of its own, and the
    rest of the string splits after them. *)
Lemma SplitAfter_closed (x w : gostring) (sep : ascii) :
  exists q Q,
    strings.SplitAfter (x ++ sep :: w) sep = (q :: Q) ++ strings.SplitAfter w sep /\
    concat (q :: Q) = x ++ [sep].
Proof.
  induction x as [|c x IH]; simpl.
  - rewrite byte_eqb_refl. exists [sep], []. split; reflexivity.
  - destruct IH as (q & Q & Hs & Hc). rewrite Hs.
    destruct (byte_eqb sep c) eqn:E.
    + exists [c], (q :: Q). split; [reflexivity|].
      simpl in *. now rewrite Hc.
    + exists (c :: q), Q. split; [reflexivity|].
      simpl in *. now rewrite Hc.
Qed.

(** ** Lemmas on the matcher *)

Lemma in_Cat (r1 r2 : regex) (c c' : config) :
  In c' (rests (Cat r1 r2) c) <->
  exists m, In m (rests r1 c) /\ In c' (rests r2 m).
Proof. simpl. apply in_flat_map. Qed.

Lemma in_Opt (r : regex) (c c' : config) :
  In c' (rests (Opt r) c) <-> In c' (rests r c) \/ c' = c.
Proof.
  simpl. rewrite in_app_iff. simpl. intuition congruence.
Qed.

Lemma in_Lit (d : ascii) (b : bool) (s : gostring) (c' : config) :
  In c' (rests (Lit d) (b, s)) <-> exists t, s = d :: t /\ c' = (false, t).
Proof.
  simpl. destruct s as [|x t].
  - split; [contradiction | intros (t & H & _); discriminate].
  - destruct (byte_eqb d x) eqn:E.
    + apply byte_eqb_eq in E. subst x. simpl. split.
      * intros [H|[]]. exists t. now split.
      * intros (t' & H & ->). injection H as ->. now left.
    + apply byte_eqb_neq in E. split; [contradiction|].
      intros (t' & H & _). congruence.
Qed.

Lemma in_Eol (c c' : config) :
  In c' (rests Eol c) <-> snd c = [] /\ c' = c.
Proof.
  simpl. destruct (snd c); simpl.
  - intuition congruence.
  - split; [contradiction | intros [H _]; discriminate].
Qed.

(** A bounded repetition of a class takes a run of that class. *)
Lemma in_Rep_Class (cs : list class_item) (hi lo : nat) (s : gostring)
      (b' : bool) (t : gostring) :
  In (b', t) (rests (Rep (Class cs) lo hi) (false, s)) <->
  b' = false /\ exists u, s = u ++ t /\ run cs lo hi u.
Proof.
  change (rests (Rep (Class cs) lo hi) (false, s))
    with (rep_rests (rests (Class cs)) lo hi (false, s)).
  revert lo s. induction hi as [|hi IH]; intros lo s.
  - simpl. destruct (Nat.eqb_spec lo 0) as [->|Hlo]; simpl.
    + split.
      * intros [H|[]]. injection H as <- <-. split; [reflexivity|].
        exists []. repeat split; auto.
      * intros (-> & u & -> & [Hlen Hhi] & _).
        destruct u; [now left | simpl in Hhi; lia].
    + split; [contradiction|].
      intros (_ & u & _ & [Hlen Hhi] & _). lia.
  - simpl rep_rests. rewrite in_app_iff, in_flat_map. split.
    + intros [(m & Hm & Hin) | Hin].
      * simpl in Hm. destruct s as [|x s']; [contradiction|].
        destruct (class_mem cs x) eqn:Ex; [|contradiction].
        destruct Hm as [<-|[]]. apply IH in Hin.
        destruct Hin as (-> & u & -> & [Hlen Hhi] & Hall).
        split; [reflexivity|]. exists (x :: u). repeat split; simpl; auto; lia.
      * destruct (Nat.eqb_spec lo 0) as [->|Hlo]; [|contradiction].
        destruct Hin as [H|[]]. injection H as <- <-. split; [reflexivity|].
        exists []. repeat split; simpl; auto; lia.
    + intros (-> & u & -> & [Hlen Hhi] & Hall).
      destruct u as [|x u].
      * right. simpl in Hlen. destruct (Nat.eqb_spec lo 0); [now left | lia].
      * left. inversion Hall as [|? ? Hx Hu]; subst.
        exists (false, u ++ t). split.
        -- simpl. rewrite Hx. now left.
        -- apply IH. split; [reflexivity|]. exists u.
           repeat split; simpl in *; auto; lia.
Qed.

Lemma run_nonempty (cs : list class_item) (hi : nat) (u : gostring) :
  run cs 1 hi u -> u <> [].
Proof. intros [[H _] _] ->. simpl in H. lia. Qed.

Lemma in_registry (s : gostring) (b' : bool) (t : gostring) :
  In (b', t) (rests registryRegexp (false, s)) <->
  b' = false /\ exists reg, s = reg ++ t /\
    (reg = [] \/ exists r, reg = r ++ ["/"%char] /\ run registryChars 1 64 r).
Proof.
  unfold registryRegexp. rewrite in_Opt.
  change (rests (Group ?r) ?c) with (rests r c). rewrite in_Cat. split.
  - intros [((bm, m) & H1 & H2) | H].
    + apply in_Rep_Class in H1. destruct H1 as (-> & u & -> & Hrun).
      apply in_Lit in H2. destruct H2 as (t' & -> & H2). injection H2 as -> ->.
      split; [reflexivity|]. exists (u ++ ["/"%char]). split.
      * now rewrite <- app_assoc.
      * right. now exists u.
    + injection H as -> ->. split; [reflexivity|]. exists []. auto.
  - intros (-> & reg & -> & [-> | (r & -> & Hrun)]).
    + now right.
    + left. exists (false, "/"%char :: t). split.
      * apply in_Rep_Class. split; [reflexivity|]. exists r.
        split; [now rewrite <- app_assoc | assumption].
      * apply in_Lit. now exists t.
Qed.

Lemma in_name (s : gostring) (b' : bool) (t : gostring) :
  In (b', t) (rests nameRegexp (false, s)) <->
  b' = false /\ exists n, s = (n ++ ["/"%char]) ++ t /\ run nameChars 1 39 n.
Proof.
  unfold nameRegexp. change (rests (Group ?r) ?c) with (rests r c).
  rewrite in_Cat. split.
  - intros ((bm, m) & H1 & H2).
    apply in_Rep_Class in H1. destruct H1 as (-> & u & -> & Hrun).
    apply in_Lit in H2. destruct H2 as (t' & -> & H2). injection H2 as -> ->.
    split; [reflexivity|]. exists u. split; [now rewrite <- app_assoc | assumption].
  - intros (-> & n & -> & Hrun).
    exists (false, "/"%char :: t). split.
    + apply in_Rep_Class. split; [reflexivity|]. exists n.
      split; [now rewrite <- app_assoc | assumption].
    + apply in_Lit. now exists t.
Qed.

Lemma in_container (s : gostring) (b' : bool) (t : gostring) :
  In (b', t) (rests containerRegexp (false, s)) <->
  b' = false /\ exists cont, s = cont ++ t /\ run containerChars 1 64 cont.
Proof.
  unfold containerRegexp. change (rests (Group ?r) ?c) with (rests r c).
  apply in_Rep_Class.
Qed.

(** An optional group of a delimiter and a run. *)
Lemma in_suffix (d : ascii) (cs : list class_item) (lo hi : nat)
      (s : gostring) (b' : bool) (t : gostring) :
  In (b', t) (rests (Opt (Group (Cat (Lit d) (Rep (Class cs) lo hi)))) (false, s)) <->
  b' = false /\ exists x, s = x ++ t /\
    (x = [] \/ exists u, x = d :: u /\ run cs lo hi u).
Proof.
  rewrite in_Opt. change (rests (Group ?r) ?c) with (rests r c).
  rewrite in_Cat. split.
  - intros [((bm, m) & H1 & H2) | H].
    + apply in_Lit in H1. destruct H1 as (t' & -> & H1). injection H1 as -> ->.
      apply in_Rep_Class in H2. destruct H2 as (-> & u & -> & Hrun).
      split; [reflexivity|]. exists (d :: u). split; [reflexivity|].
      right. now exists u.
    + injection H as -> ->. split; [reflexivity|]. exists []. auto.
  - intros (-> & x & -> & [-> | (u & -> & Hrun)]).
    + now right.
    + left. exists (false, u ++ t). split.
      * apply in_Lit. now exists (u ++ t).
      * apply in_Rep_Class. split; [reflexivity|]. now exists u.
Qed.

(** The matches of the whole pattern at the beginning of the text: they
    end at the end of the text, and the text has the shape above. *)
Lemma in_shubRegex (s : gostring) (c' : config) :
  In c' (rests shubRegex (true, s)) <-> c' = (false, []) /\ shub_shape s.
Proof.
  unfold shubRegex, pieces, fold_right. split.
  - intros H.
    apply in_Cat in H. destruct H as (m0 & H0 & H).
    simpl in H0. destruct H0 as [<-|[]].
    apply in_Cat in H. destruct H as (m1 & H1 & H).
    apply in_Lit in H1. destruct H1 as (s1 & -> & ->).
    apply in_Cat in H. destruct H as (m2 & H2 & H).
    apply in_Lit in H2. destruct H2 as (s2 & -> & ->).
    apply in_Cat in H. destruct H as ((b3, s3) & H3 & H).
    apply in_registry in H3. destruct H3 as (-> & reg & -> & Hreg).
    apply in_Cat in H. destruct H as ((b4, s4) & H4 & H).
    apply in_name in H4. destruct H4 as (-> & n & -> & Hn).
    apply in_Cat in H. destruct H as ((b5, s5) & H5 & H).
    apply in_container in H5. destruct H5 as (-> & cont & -> & Hcont).
    apply in_Cat in H. destruct H as ((b6, s6) & H6 & H).
    apply in_suffix in H6. destruct H6 as (-> & tg & -> & Htg).
    apply in_Cat in H. destruct H as ((b7, s7) & H7 & H).
    apply in_suffix in H7. destruct H7 as (-> & dg & -> & Hdg).
    apply in_Cat in H. destruct H as (m8 & H8 & H).
    apply in_Eol in H8. destruct H8 as [H8 ->]. simpl in H8. subst s7.
    simpl in H. destruct H as [<-|[]]. split; [reflexivity|].
    exists reg, (n ++ ["/"%char]), cont, tg, dg. rewrite app_nil_r.
    split; [reflexivity|]. split; [assumption|].
    split; [now exists n|]. auto.
  - intros (-> & reg & name & cont & tg & dg & -> & Hreg & (n & -> & Hn)
            & Hcont & Htg & Hdg).
    apply in_Cat. exists (true, str "//" ++ reg ++ (n ++ ["/"%char]) ++ cont ++ tg ++ dg).
    split; [now left|].
    apply in_Cat. exists (false, "/"%char :: reg ++ (n ++ ["/"%char]) ++ cont ++ tg ++ dg).
    split; [apply in_Lit; eexists; split; reflexivity|].
    apply in_Cat. exists (false, reg ++ (n ++ ["/"%char]) ++ cont ++ tg ++ dg).
    split; [apply in_Lit; eexists; split; reflexivity|].
    apply in_Cat. exists (false, (n ++ ["/"%char]) ++ cont ++ tg ++ dg).
    split; [apply in_registry; split; [reflexivity|]; exists reg; now split|].
    apply in_Cat. exists (false, cont ++ tg ++ dg).
    split; [apply in_name; split; [reflexivity|]; exists n; now split|].
    apply in_Cat. exists (false, tg ++ dg).
    split; [apply in_container; split; [reflexivity|]; exists cont; now split|].
    apply in_Cat. exists (false, dg).
    split; [apply in_suffix; split; [reflexivity|]; exists tg; now split|].
    apply in_Cat. exists (false, []).
    split; [apply in_suffix; split; [reflexivity|]; exists dg;
            split; [now rewrite app_nil_r | assumption]|].
    apply in_Cat. exists (false, []).
    split; [apply in_Eol; now split | now left].
Qed.

Lemma rests_not_start (s : gostring) : rests shubRegex (false, s) = [].
Proof. reflexivity. Qed.

Lemma find_from_eq (re : regex) (b : bool) (s : gostring) :
  find_from re b s =
  match rests re (b, s) with
  | (_, t) :: _ => Some (firstn (length s - length t) s)
  | [] => match s with
          | [] => None
          | _ :: s' => find_from re false s'
          end
  end.
Proof. destruct s; reflexivity. Qed.

(** The pattern is anchored: no match starts after the beginning. *)
Lemma find_from_later (s : gostring) : find_from shubRegex false s = None.
Proof.
  induction s as [|c s IH]; rewrite find_from_eq, rests_not_start;
    [reflexivity | exact IH].
Qed.

Lemma find_from_shub (s : gostring) :
  (shub_shape s /\ find_from shubRegex true s = Some s) \/
  (~ shub_shape s /\ find_from shubRegex true s = None).
Proof.
  rewrite find_from_eq.
  destruct (rests shubRegex (true, s)) as [|[b' t] l] eqn:E.
  - right. split.
    + intros H.
      assert (Hin : In (false, []) (rests shubRegex (true, s)))
        by (apply in_shubRegex; now split).
      rewrite E in Hin. contradiction.
    + destruct s; [reflexivity | apply find_from_later].
  - left.
    assert (Hin : In (b', t) (rests shubRegex (true, s)))
      by (rewrite E; now left).
    apply in_shubRegex in Hin. destruct Hin as [Heq Hshape].
    injection Heq as -> ->. split; [assumption|].
    simpl length. now rewrite Nat.sub_0_r, firstn_all.
Qed.

Lemma MatchString_shub (s : gostring) :
  MatchString shubRegex s = true <-> shub_shape s.
Proof.
  unfold MatchString.
  destruct (find_from_shub s) as [[Hs ->] | [Hs ->]]; split; auto; discriminate.
Qed.

Lemma FindString_shub (s : gostring) :
  FindString shubRegex s = if MatchString shubRegex s then s else [].
Proof.
  unfold FindString, MatchString.
  destruct (find_from_shub s) as [[Hs ->] | [Hs ->]]; reflexivity.
Qed.

(** ** Lemmas on the character classes *)

Lemma run_notin (cs : list class_item) (lo hi : nat) (u : gostring) (x : ascii) :
  class_mem cs x = false -> run cs lo hi u -> ~ In x u.
Proof.
  intros Hx [_ Hall] Hin. rewrite Forall_forall in Hall.
  apply Hall in Hin. congruence.
Qed.

Lemma suffix_notin (d : ascii) (cs : list class_item) (lo hi : nat)
      (x : ascii) (sfx : gostring) :
  (sfx = [] \/ exists u, sfx = d :: u /\ run cs lo hi u) ->
  x <> d -> class_mem cs x = false -> ~ In x sfx.
Proof.
  intros [-> | (u & -> & Hrun)] Hd Hx Hin; [contradiction|].
  destruct Hin as [Heq | Hin]; [congruence|].
  exact (run_notin x Hx Hrun Hin).
Qed.

(** A character outside a class is in no run of it. *)
Ltac outside H := eapply run_notin; [| exact H]; reflexivity.

Lemma notin_app (x : ascii) (u v : gostring) :
  ~ In x u -> ~ In x v -> ~ In x (u ++ v).
Proof. intros Hu Hv H. apply in_app_or in H. tauto. Qed.

Lemma index_app_exact {A} (P : list A) (x : A) (R : list A) :
  index (P ++ x :: R) (length P) = Ret x.
Proof.
  unfold index. rewrite nth_error_app2 by lia. now rewrite Nat.sub_diag.
Qed.

Lemma slice_to_app_exact {A} (P R : list A) :
  slice_to (P ++ R) (length P) = Ret P.
Proof.
  unfold slice_to. rewrite length_app.
  destruct (Nat.leb_spec (length P) (length P + length R)); [|lia].
  rewrite firstn_app, Nat.sub_diag, firstn_all. simpl. now rewrite app_nil_r.
Qed.

Lemma tail_two {A} (P : list A) (x y : A) :
  slice_to (P ++ [x; y]) (length (P ++ [x; y]) - 2) = Ret P /\
  index (P ++ [x; y]) (length (P ++ [x; y]) - 2) = Ret x /\
  index (P ++ [x; y]) (length (P ++ [x; y]) - 1) = Ret y.
Proof.
  rewrite length_app. simpl length.
  replace (length P + 2 - 2) with (length P) by lia.
  replace (length P + 2 - 1) with (length (P ++ [x])) 
    by (rewrite length_app; simpl; lia).
  split; [apply slice_to_app_exact|]. split; [apply index_app_exact|].
  change (P ++ [x; y]) with (P ++ [x] ++ [y]).
  rewrite app_assoc. apply index_app_exact.
Qed.

(** ** The parser on a string of the pattern's shape *)

Section Pieces.
Variables reg n cont tg dg : gostring.
Hypothesis Hreg :
  reg = [] \/ exists r, reg = r ++ ["/"%char] /\ run registryChars 1 64 r.
Hypothesis Hn : run nameChars 1 39 n.
Hypothesis Hcont : run containerChars 1 64 cont.
Hypothesis Htg :
  tg = [] \/ exists t, tg = ":"%char :: t /\ run containerChars 1 64 t.
Hypothesis Hdg :
  dg = [] \/ exists d, dg = "@"%char :: d /\ run digestChars 32 32 d.

Let last := cont ++ tg ++ dg.

Lemma last_no_slash : ~ In "/"%char last.
Proof.
  unfold last. apply notin_app; [|apply notin_app].
  - outside Hcont.
  - eapply suffix_notin; [exact Htg | discriminate | reflexivity].
  - eapply suffix_notin; [exact Hdg | discriminate | reflexivity].
Qed.

Lemma head_no_at : ~ In "@"%char (cont ++ tg).
Proof.
  apply notin_app.
  - outside Hcont.
  - eapply suffix_notin; [exact Htg | discriminate | reflexivity].
Qed.

Lemma cont_no_colon : ~ In ":"%char cont.
Proof. outside Hcont. Qed.

(** The split at the slashes. *)
Lemma split_slashes :
  exists P,
    strings.SplitAfter (reg ++ (n ++ ["/"%char]) ++ last) "/"
      = P ++ [n ++ ["/"%char]; last] /\
    concat P = reg /\ (P = [] <-> reg = []).
Proof.
  assert (Hname :
    strings.SplitAfter ((n ++ ["/"%char]) ++ last) "/" = [n ++ ["/"%char]; last]).
  { rewrite <- app_assoc. simpl.
    rewrite SplitAfter_at by outside Hn.
    now rewrite SplitAfter_notin by exact last_no_slash. }
  destruct Hreg as [-> | (r & -> & Hr)].
  - exists []. simpl. rewrite Hname. repeat split; auto.
  - destruct (SplitAfter_closed r ((n ++ ["/"%char]) ++ last) "/"%char)
      as (q & Q & Hs & Hc).
    exists (q :: Q). rewrite <- app_assoc. simpl app at 2.
    rewrite Hs, Hname. split; [reflexivity|]. split; [exact Hc|].
    split; [discriminate|]. intros H. destruct r; discriminate.
Qed.

(** The split at the [@]. *)
Lemma split_digest :
  match dg with
  | [] => strings.Contains last "@" = false
  | _ :: d =>
      strings.Contains last "@" = true /\
      strings.Split last "@" = [cont ++ tg; d] /\ dg = "@"%char :: d
  end.
Proof.
  unfold last. destruct Hdg as [-> | (d & -> & Hd)].
  - rewrite app_nil_r. apply Contains_notin, head_no_at.
  - split; [|split; [|reflexivity]].
    + apply Contains_In. rewrite app_assoc. apply in_or_app. right. now left.
    + rewrite app_assoc, Split_at by exact head_no_at.
      now rewrite Split_notin by outside Hd.
Qed.

(** The split at the [:]. *)
Lemma split_tag :
  match tg with
  | [] => strings.Contains (cont ++ tg) ":" = false
  | _ :: t =>
      strings.Contains (cont ++ tg) ":" = true /\
      strings.Split (cont ++ tg) ":" = [cont; t] /\ tg = ":"%char :: t
  end.
Proof.
  destruct Htg as [-> | (t & -> & Ht)].
  - rewrite app_nil_r. apply Contains_notin, cont_no_colon.
  - split; [|split; [|reflexivity]].
    + apply Contains_In. apply in_or_app. right. now left.
    + rewrite Split_at by exact cont_no_colon.
      now rewrite Split_notin by outside Ht.
Qed.

Lemma pieces_shape : shub_shape (str "//" ++ reg ++ (n ++ ["/"%char]) ++ last).
Proof.
  exists reg, (n ++ ["/"%char]), cont, tg, dg. unfold last.
  split; [reflexivity|]. split; [assumption|].
  split; [now exists n|]. auto.
Qed.

Lemma parse_pieces :
  ShubParseReference (str "//" ++ reg ++ (n ++ ["/"%char]) ++ last)
  = Ret (locator reg (n ++ ["/"%char]) cont tg dg, None).
Proof.
  unfold ShubParseReference.
  rewrite FindString_shub.
  rewrite (proj2 (MatchString_shub _) pieces_shape).
  rewrite (proj2 (differ_false _ _) eq_refl).
  change (slice_from (str "//" ++ ?x) 2) with (Ret x).
  cbv beta iota zeta delta [bind].
  destruct split_slashes as (P & -> & HP & Hnil).
  destruct (tail_two P (n ++ ["/"%char]) last) as (H1 & H2 & H3).
  unfold gostring in *. rewrite H1, H2, H3. clear H1 H2 H3.
  rewrite length_app. simpl length.
  assert (Hfirst : forall X Y Z : outcome (ShubURI * gostring),
    (reg = [] -> Y = Ret (locator reg (n ++ ["/"%char]) [] [] [], last)) ->
    (reg <> [] -> X = Ret (locator reg (n ++ ["/"%char]) [] [] [], last)) ->
    (if 2 <? length P + 2 then X else if length P + 2 =? 2 then Y else Z)
    = Ret (locator reg (n ++ ["/"%char]) [] [] [], last)).
  { intros X Y Z HY HX. destruct P as [|p P].
    - apply HY. now apply Hnil.
    - destruct (Nat.ltb_spec 2 (length (p :: P) + 2)); [|simpl in *; lia].
      apply HX. intros Hr. apply Hnil in Hr. discriminate. }
  rewrite Hfirst; clear Hfirst.
  2:{ intros ->. reflexivity. }
  2:{ intros Hr. unfold strings.Join. rewrite HP. destruct reg; [congruence|reflexivity]. }
  cbv beta iota.
  pose proof split_digest as Hd. pose proof split_tag as Ht.
  unfold last in *.
  destruct dg as [|c d].
  - rewrite Hd. rewrite app_nil_r in *.
    destruct tg as [|c t].
    + rewrite Ht. rewrite app_nil_r. destruct reg; reflexivity.
    + destruct Ht as (-> & -> & Heq). injection Heq as ->.
      destruct reg; reflexivity.
  - destruct Hd as (-> & -> & Heq). injection Heq as ->.
    unfold index, nth_error. cbv beta iota.
    destruct tg as [|c t].
    + rewrite Ht. rewrite app_nil_r. destruct reg; reflexivity.
    + destruct Ht as (-> & -> & Heq). injection Heq as ->.
      destruct reg; reflexivity.
Qed.

Lemma reg_notin (x : ascii) :
  x <> "/"%char -> class_mem registryChars x = false -> ~ In x reg.
Proof.
  intros Hx Hc. destruct Hreg as [-> | (r & -> & Hr)]; [tauto|].
  apply notin_app.
  - exact (run_notin x Hc Hr).
  - intros [H|[]]. congruence.
Qed.

Lemma Count_suffix (d : ascii) (cs : list class_item) (lo hi : nat)
      (x : ascii) (sfx : gostring) :
  (sfx = [] \/ exists u, sfx = d :: u /\ run cs lo hi u) ->
  class_mem cs x = false -> strings.Count sfx x <= 1.
Proof.
  intros [-> | (u & -> & Hu)] Hx; [unfold strings.Count; simpl; lia|].
  change (d :: u) with ([d] ++ u). rewrite Count_app.
  rewrite (@Count_notin u x (run_notin x Hx Hu)).
  unfold strings.Count. simpl. destruct (byte_eqb x d); simpl; lia.
Qed.

Lemma count_at : strings.Count (reg ++ (n ++ ["/"%char]) ++ last) "@" <= 1.
Proof.
  unfold last. rewrite !Count_app.
  rewrite (@Count_notin reg _) by (apply reg_notin; [discriminate|reflexivity]).
  rewrite (@Count_notin n _) by outside Hn.
  rewrite (@Count_notin cont _) by outside Hcont.
  rewrite (@Count_notin tg _)
    by (eapply suffix_notin; [exact Htg | discriminate | reflexivity]).
  change (strings.Count ["/"%char] "@") with 0. simpl.
  eapply Count_suffix; [exact Hdg | reflexivity].
Qed.

Lemma count_colon : strings.Count (reg ++ (n ++ ["/"%char]) ++ last) ":" <= 1.
Proof.
  unfold last. rewrite !Count_app.
  rewrite (@Count_notin reg _) by (apply reg_notin; [discriminate|reflexivity]).
  rewrite (@Count_notin n _) by outside Hn.
  rewrite (@Count_notin cont _) by outside Hcont.
  rewrite (@Count_notin dg _)
    by (eapply suffix_notin; [exact Hdg | discriminate | reflexivity]).
  change (strings.Count ["/"%char] ":") with 0. simpl. rewrite Nat.add_0_r.
  eapply Count_suffix; [exact Htg | reflexivity].
Qed.

Lemma count_slash :
  strings.Count (reg ++ (n ++ ["/"%char]) ++ last) "/"
  = strings.Count reg "/" + 1.
Proof.
  rewrite !Count_app.
  rewrite (@Count_notin n _) by outside Hn.
  rewrite (@Count_notin last _ last_no_slash).
  change (strings.Count ["/"%char] "/") with 1. lia.
Qed.

Lemma canonical_pieces :
  canonical (str "//" ++ reg ++ (n ++ ["/"%char]) ++ last)
  = String (locator reg (n ++ ["/"%char]) cont tg dg).
Proof.
  unfold canonical.
  change (skipn 2 (str "//" ++ ?x)) with x. cbv zeta.
  rewrite count_slash. destruct Hreg as [-> | (r & -> & Hr)].
  - reflexivity.
  - rewrite Count_app. change (strings.Count ["/"%char] "/") with 1.
    destruct (Nat.eqb_spec (strings.Count r "/" + 1 + 1) 1); [lia|].
    destruct r; reflexivity.
Qed.

Lemma rest_pieces :
  skipn 2 (str "//" ++ reg ++ (n ++ ["/"%char]) ++ last)
  = (if defaultReg (locator reg (n ++ ["/"%char]) cont tg dg) then []
     else registry (locator reg (n ++ ["/"%char]) cont tg dg))
    ++ user (locator reg (n ++ ["/"%char]) cont tg dg)
    ++ container (locator reg (n ++ ["/"%char]) cont tg dg)
    ++ tag (locator reg (n ++ ["/"%char]) cont tg dg)
    ++ digest (locator reg (n ++ ["/"%char]) cont tg dg).
Proof.
  change (skipn 2 (str "//" ++ ?x)) with x. destruct reg; reflexivity.
Qed.

Lemma locator_invariant :
  container (locator reg (n ++ ["/"%char]) cont tg dg) <> [] /\
  (tag (locator reg (n ++ ["/"%char]) cont tg dg) = [] \/
   exists t, tag (locator reg (n ++ ["/"%char]) cont tg dg) = ":"%char :: t) /\
  (digest (locator reg (n ++ ["/"%char]) cont tg dg) = [] \/
   exists d, digest (locator reg (n ++ ["/"%char]) cont tg dg) = "@"%char :: d).
Proof.
  assert (Hc : cont <> []) by exact (run_nonempty Hcont).
  destruct reg; simpl; (split; [exact Hc|]); split.
  all: first [ destruct Htg as [-> | (t & -> & _)]; [now left | right; now exists t]
             | destruct Hdg as [-> | (d & -> & _)]; [now left | right; now exists d] ].
Qed.
End Pieces.

(** What the parser does, by the three kinds of input. *)
Lemma parse_shape (src : gostring) :
  shub_shape src ->
  exists reg n cont tg dg,
    src = str "//" ++ reg ++ (n ++ ["/"%char]) ++ cont ++ tg ++ dg /\
    (reg = [] \/ exists r, reg = r ++ ["/"%char] /\ run registryChars 1 64 r) /\
    run nameChars 1 39 n /\
    run containerChars 1 64 cont /\
    (tg = [] \/ exists t, tg = ":"%char :: t /\ run containerChars 1 64 t) /\
    (dg = [] \/ exists d, dg = "@"%char :: d /\ run digestChars 32 32 d) /\
    ShubParseReference src = Ret (locator reg (n ++ ["/"%char]) cont tg dg, None).
Proof.
  intros (reg & name & cont & tg & dg & -> & Hreg & (n & -> & Hn) & Hcont
          & Htg & Hdg).
  exists reg, n, cont, tg, dg. repeat (split; [first [reflexivity | assumption]|]).
  now apply parse_pieces.
Qed.

Lemma parse_invalid (src : gostring) :
  ~ shub_shape src -> src <> [] ->
  ShubParseReference src = Ret (zeroURI, Some (invalidURI src)).
Proof.
  intros Hs Hne. unfold ShubParseReference. rewrite FindString_shub.
  destruct (MatchString shubRegex src) eqn:E.
  - apply MatchString_shub in E. contradiction.
  - now rewrite (proj2 (differ_true src []) Hne).
Qed.

Lemma parse_empty : ShubParseReference [] = Panic SliceBounds.
Proof. reflexivity. Qed.

Lemma shape_dec (src : gostring) : shub_shape src \/ ~ shub_shape src.
Proof.
  destruct (MatchString shubRegex src) eqn:E.
  - left. now apply MatchString_shub.
  - right. intros H. apply MatchString_shub in H. congruence.
Qed.

Lemma parse_success_shape (src : gostring) (uri : ShubURI) :
  ShubParseReference src = Ret (uri, None) -> shub_shape src.
Proof.
  intros H. destruct (shape_dec src) as [Hs | Hs]; [assumption|].
  destruct src as [|c src].
  - rewrite parse_empty in H. discriminate.
  - rewrite (parse_invalid Hs) in H by discriminate. discriminate.
Qed.


Lemma runb_run (cs : list class_item) (lo hi : nat) (u : gostring) :
  runb cs lo hi u = true -> run cs lo hi u.
Proof.
  unfold runb, run. rewrite !andb_true_iff, !Nat.leb_le, forallb_forall, Forall_forall.
  tauto.
Qed.

(** The parser gives the default registry to the locators that it marks
    as of the default registry. *)
Lemma parse_default_registry (src : gostring) (uri : ShubURI) :
  ShubParseReference src = Ret (uri, None) ->
  defaultReg uri = true -> registry uri = defaultRegistry.
Proof.
  intros H. assert (Hs : shub_shape src) by (eapply parse_success_shape; exact H).
  apply parse_shape in Hs.
  destruct Hs as (reg & n & cont & tg & dg & -> & _ & _ & _ & _ & _ & Hp).
  rewrite Hp in H. injection H as <-.
  destruct reg; simpl; [reflexivity | discriminate].
Qed.

(** ** The properties of the parser *)

(** The plain reference of the specification: default registry, no tag, no
    digest. *)
Example parse_plain_reference :
  ShubParseReference plain_reference = Ret (plain_locator, None).
Proof. vm_compute. reflexivity. Qed.

(** C1. Round trip: for a reference that the pattern accepts, parsing
    succeeds and the fields of the result, put together in the order
    registry, user, container, tag, digest, are the canonical form of the
    input. *)
Theorem parse_roundtrip (src : gostring) :
  MatchString shubRegex src = true ->
  exists uri,
    ShubParseReference src = Ret (uri, None) /\ String uri = canonical src.
Proof.
  intros H. apply MatchString_shub, parse_shape in H.
  destruct H as (reg & n & cont & tg & dg & -> & Hreg & Hn & Hcont & Htg & Hdg & Hp).
  eexists. split; [exact Hp|].
  symmetry. now apply canonical_pieces.
Qed.

Lemma parse_roundtrip_witness :
  MatchString shubRegex plain_reference = true /\
  exists uri,
    ShubParseReference plain_reference = Ret (uri, None) /\
    String uri = canonical plain_reference.
Proof.
  split; [vm_compute; reflexivity|].
  apply parse_roundtrip. vm_compute. reflexivity.
Defined.

(** C2, as the code has it. The parser succeeds exactly on the strings of
    the shape of its pattern, whose registry part is one optional run of 1
    to 64 characters of [[-a-zA-Z0-9/]] closed by a slash; on every other
    string that is not empty it returns the zero locator and the error. *)
Theorem parse_accepts_pattern (src : gostring) :
  (MatchString shubRegex src = true <-> shub_shape src) /\
  (shub_shape src <-> exists uri, ShubParseReference src = Ret (uri, None)) /\
  (~ shub_shape src -> src <> [] ->
   ShubParseReference src = Ret (zeroURI, Some (invalidURI src))).
Proof.
  split; [apply MatchString_shub|]. split; [split|].
  - intros H. apply parse_shape in H.
    destruct H as (reg & n & cont & tg & dg & _ & _ & _ & _ & _ & _ & Hp).
    eexists. exact Hp.
  - intros (uri & H). eapply parse_success_shape. exact H.
  - apply parse_invalid.
Qed.

Lemma parse_accepts_pattern_witness :
  ~ shub_shape (str "//owner") /\ str "//owner" <> [] /\
  ShubParseReference (str "//owner")
  = Ret (zeroURI, Some (invalidURI (str "//owner"))).
Proof.
  assert (Hs : ~ shub_shape (str "//owner")).
  { intros H. apply MatchString_shub in H. vm_compute in H. discriminate. }
  split; [exact Hs|]. split; [discriminate|].
  apply (proj2 (proj2 (parse_accepts_pattern (str "//owner"))));
    [exact Hs | discriminate].
Defined.

(** C2, as the specification words it, fails: a reference with two registry
    segments of forty characters is in the grammar of the specification,
    and the parser returns the error for it. *)
Lemma spec_grammar_rejected :
  spec_grammar long_reference /\
  ShubParseReference long_reference
  = Ret (zeroURI, Some (invalidURI long_reference)).
Proof.
  split; [|vm_compute; reflexivity].
  exists [repeat "a"%char 40; repeat "b"%char 40], (str "owner"),
         (str "container"), [], [].
  split; [vm_compute; reflexivity|].
  split; [repeat constructor; apply runb_run; vm_compute; reflexivity|].
  split; [apply runb_run; vm_compute; reflexivity|].
  split; [apply runb_run; vm_compute; reflexivity|].
  split; now left.
Qed.

(** The grammar of the specification begins, after the prefix, with a
    character of a segment; the pattern of the code admits a slash there. *)
Lemma spec_grammar_first (src : gostring) :
  spec_grammar src ->
  exists c rest,
    src = "/"%char :: "/"%char :: c :: rest /\ class_mem nameChars c = true.
Proof.
  intros (segs & owner & cont & tg & dg & -> & Hsegs & Ho & _).
  assert (Hfirst : forall u v : gostring, run nameChars 1 64 u \/ run nameChars 1 39 u ->
            exists c rest, u ++ v = c :: rest /\ class_mem nameChars c = true).
  { intros u v Hu.
    assert (Hu' : u <> [] /\ Forall (fun c => class_mem nameChars c = true) u).
    { destruct Hu as [[[Hl _] Ha] | [[Hl _] Ha]]; (split; [|exact Ha]);
        intros ->; simpl in Hl; lia. }
    destruct Hu' as [Hne Ha]. destruct u as [|c u]; [congruence|].
    inversion Ha; subst. exists c, (u ++ v). now split. }
  assert (Hform : exists u v,
            (run nameChars 1 64 u \/ run nameChars 1 39 u) /\
            str "//" ++ concat (map (fun g => g ++ ["/"%char]) segs)
              ++ (owner ++ ["/"%char]) ++ cont ++ tg ++ dg
            = "/"%char :: "/"%char :: u ++ v).
  { destruct segs as [|g segs].
    - exists owner, (["/"%char] ++ cont ++ tg ++ dg). split; [now right|].
      simpl. now rewrite <- app_assoc.
    - inversion Hsegs as [|? ? Hg _]; subst.
      exists g, (["/"%char] ++ concat (map (fun g => g ++ ["/"%char]) segs)
                   ++ (owner ++ ["/"%char]) ++ cont ++ tg ++ dg).
      split; [now left|]. simpl. now rewrite <- !app_assoc. }
  destruct Hform as (u & v & Hu & ->).
  destruct (Hfirst u v Hu) as (c & rest & -> & Hc).
  exists c, rest. now split.
Qed.

(** The other way round: a registry part of slashes alone is outside the
    grammar of the specification, and the parser takes it. *)
Example pattern_admits_empty_segments :
  ~ spec_grammar (str "////a/b") /\
  ShubParseReference (str "////a/b")
  = Ret (mkShubURI (str "//") (str "a/") (str "b") [] [] false, None).
Proof.
  split; [|vm_compute; reflexivity].
  intros H. apply spec_grammar_first in H.
  destruct H as (c & rest & Heq & Hc).
  injection Heq as <- _. vm_compute in Hc. discriminate.
Qed.

(** C7. The full reference of the specification, with any digest of 32
    lowercase hexadecimal characters, parses into the six fields that the
    specification lists. *)
Theorem parse_full_reference (h : gostring) :
  run digestChars 32 32 h ->
  ShubParseReference (full_reference h) = Ret (full_locator h, None).
Proof.
  intros Hh.
  apply (@parse_pieces (str "host/path/") (str "owner") (str "container")
                       (str ":mytag") ("@"%char :: h)).
  - right. exists (str "host/path"). split; [reflexivity|].
    apply runb_run. vm_compute. reflexivity.
  - apply runb_run. vm_compute. reflexivity.
  - apply runb_run. vm_compute. reflexivity.
  - right. exists (str "mytag"). split; [reflexivity|].
    apply runb_run. vm_compute. reflexivity.
  - right. now exists h.
Qed.

Lemma parse_full_reference_witness :
  run digestChars 32 32 hex32 /\
  ShubParseReference (full_reference hex32) = Ret (full_locator hex32, None).
Proof.
  assert (H : run digestChars 32 32 hex32)
    by (apply runb_run; vm_compute; reflexivity).
  split; [exact H | apply parse_full_reference; exact H].
Defined.

(** C8. After a successful parse the container is not empty, and the tag
    and the digest are empty or begin with their delimiter. *)
Theorem parse_invariant (src : gostring) (uri : ShubURI) :
  ShubParseReference src = Ret (uri, None) ->
  container uri <> [] /\
  (tag uri = [] \/ exists t, tag uri = ":"%char :: t) /\
  (digest uri = [] \/ exists d, digest uri = "@"%char :: d).
Proof.
  intros H. assert (Hs : shub_shape src) by (eapply parse_success_shape; exact H).
  apply parse_shape in Hs.
  destruct Hs as (reg & n & cont & tg & dg & -> & Hreg & Hn & Hcont & Htg & Hdg & Hp).
  rewrite Hp in H. injection H as <-.
  now apply locator_invariant.
Qed.

Lemma parse_invariant_witness :
  ShubParseReference (full_reference hex32) = Ret (full_locator hex32, None) /\
  container (full_locator hex32) <> [] /\
  (tag (full_locator hex32) = [] \/
   exists t, tag (full_locator hex32) = ":"%char :: t) /\
  (digest (full_locator hex32) = [] \/
   exists d, digest (full_locator hex32) = "@"%char :: d).
Proof.
  assert (H : ShubParseReference (full_reference hex32)
              = Ret (full_locator hex32, None)) by (vm_compute; reflexivity).
  split; [exact H | eapply parse_invariant; exact H].
Defined.

(** C9. A reference that parses has at most one [@] and at most one [:]
    after its prefix, and the fields of the result hold all of its text:
    the splits at the delimiters drop nothing. *)
Theorem parse_single_delimiters (src : gostring) (uri : ShubURI) :
  ShubParseReference src = Ret (uri, None) ->
  strings.Count (skipn 2 src) "@" <= 1 /\
  strings.Count (skipn 2 src) ":" <= 1 /\
  skipn 2 src
  = (if defaultReg uri then [] else registry uri)
      ++ user uri ++ container uri ++ tag uri ++ digest uri.
Proof.
  intros H. assert (Hs : shub_shape src) by (eapply parse_success_shape; exact H).
  apply parse_shape in Hs.
  destruct Hs as (reg & n & cont & tg & dg & -> & Hreg & Hn & Hcont & Htg & Hdg & Hp).
  rewrite Hp in H. injection H as <-.
  split; [|split].
  - change (skipn 2 (str "//" ++ ?x)) with x. now apply count_at.
  - change (skipn 2 (str "//" ++ ?x)) with x. now apply count_colon.
  - now apply rest_pieces.
Qed.

Lemma parse_single_delimiters_witness :
  ShubParseReference (full_reference hex32) = Ret (full_locator hex32, None) /\
  strings.Count (skipn 2 (full_reference hex32)) "@" <= 1 /\
  strings.Count (skipn 2 (full_reference hex32)) ":" <= 1 /\
  skipn 2 (full_reference hex32)
  = (if defaultReg (full_locator hex32) then [] else registry (full_locator hex32))
      ++ user (full_locator hex32) ++ container (full_locator hex32)
      ++ tag (full_locator hex32) ++ digest (full_locator hex32).
Proof.
  assert (H : ShubParseReference (full_reference hex32)
              = Ret (full_locator hex32, None)) by (vm_compute; reflexivity).
  split; [exact H | eapply parse_single_delimiters; exact H].
Defined.

(** ** Lemmas on the file system *)

Lemma filter_twice {A} (f : A -> bool) (l : list A) :
  filter f (filter f l) = filter f l.
Proof.
  induction l as [|a l IH]; simpl; [reflexivity|].
  destruct (f a) eqn:E; simpl; [rewrite E, IH; reflexivity | exact IH].
Qed.

Lemma RemoveAll_twice (path : gostring) (fs : list (gostring * node)) :
  RemoveAll path (RemoveAll path fs) = RemoveAll path fs.
Proof. destruct path; simpl; [reflexivity | apply filter_twice]. Qed.

Lemma RemoveAll_gone (path : gostring) (fs : list (gostring * node))
      (q : gostring) (x : node) :
  path <> [] -> In (q, x) (RemoveAll path fs) -> under path q = false.
Proof.
  destruct path as [|c path]; [congruence|]. intros _ H.
  apply filter_In in H. destruct H as [_ H]. simpl in H.
  now apply negb_true_iff in H.
Qed.

Lemma RemoveAll_kept (path : gostring) (fs : list (gostring * node))
      (q : gostring) (x : node) :
  In (q, x) fs -> under path q = false -> In (q, x) (RemoveAll path fs).
Proof.
  intros Hin Hu. destruct path as [|c path]; [exact Hin|].
  apply filter_In. split; [exact Hin|]. simpl. now rewrite Hu.
Qed.

Lemma read_write (fs : list (gostring * node)) (name data : gostring) :
  read_file (write_file fs name data) name = Some (File data).
Proof.
  induction fs as [|[n x] fs IH]; simpl.
  - now rewrite (proj2 (differ_false name name) eq_refl).
  - destruct (strings.differ name n) eqn:E; simpl; rewrite E; [exact IH | reflexivity].
Qed.

(** ** Lemmas on the stages of [Get] *)

Lemma SplitN2_at (u v : gostring) (sep : ascii) :
  ~ In sep u -> strings.SplitN2 (u ++ sep :: v) sep = [u; v].
Proof.
  induction u as [|c u IH]; simpl; intros H.
  - now rewrite byte_eqb_refl.
  - destruct (byte_eqb sep c) eqn:E.
    + apply byte_eqb_eq in E. subst. exfalso. apply H. now left.
    + rewrite IH; [reflexivity|]. intros Hin. apply H. now right.
Qed.

Section Stages.
Variable LP : Type.
Variable E : Env LP.
Implicit Types (cp : ShubConveyorPacker LP) (w : World).

(** The manifest lookup for a locator of the default registry, with the
    address worked out. *)
Lemma getManifest_default cp w :
  defaultReg (srcURI cp) = true ->
  registry (srcURI cp) = defaultRegistry ->
  getManifest E cp w =
  match NewRequest E (str "GET") (manifestAddress (srcURI cp)) with
  | inr e => Ret (cp, Some e, w)
  | inl req =>
      match Do E (withUserAgent E req) with
      | inr e => Ret (cp, Some e, logRequest w (Address req))
      | inl res =>
          if negb (StatusCode res =? 200)%Z
          then Ret (cp, Some (Status res), logRequest w (Address req))
          else decodeManifest E cp res (logRequest w (Address req))
      end
  end.
Proof.
  intros Hd Hr. unfold getManifest. rewrite Hd. cbv [negb].
  unfold String. rewrite Hr.
  set (rest := user (srcURI cp) ++ container (srcURI cp) ++ tag (srcURI cp)
                 ++ digest (srcURI cp)).
  change (str "www." ++ defaultRegistry ++ rest)
    with (str "www.singularity-hub.org" ++ "/"%char :: str "api/container/" ++ rest).
  rewrite Split_at, SplitN2_at
    by (intros H; vm_compute in H; repeat (destruct H as [H|H]; [discriminate|]); exact H).
  reflexivity.
Qed.

Lemma fetchImage_bundle cp w cp' (e : option error) w' :
  fetchImage E cp w = Ret (cp', e, w') -> b cp' = b cp /\ b cp <> None.
Proof.
  unfold fetchImage. destruct (b cp) as [bundle|] eqn:Hb; [|discriminate].
  cbv [deref bind].
  destruct (TempFile E w (Path bundle) (str "shub-container")); [|discriminate].
  destruct (manifest cp); [|discriminate].
  destruct (httpGet E (Image s)) as [resp|err].
  - destruct (BodyErr resp);
      [|destruct (negb (Z.of_nat (length (Body resp)) =? ContentLength resp)%Z)];
      intros H; injection H as <- _ _; simpl; rewrite ?Hb; split; congruence.
  - intros H; injection H as <- _ _. rewrite Hb. split; congruence.
Qed.

(** A [Get] that succeeds leaves a workspace in the orchestrator. *)
Lemma Get_success_bundle cp rcp w cp' w' :
  Get E cp rcp w = Ret (cp', None, w') -> b cp' <> None.
Proof.
  unfold Get.
  destruct (ShubParseReference (str "//" ++ map_get (Header rcp) (str "from")))
    as [[uri [e|]]|]; cbv [bind]; try discriminate.
  cbv beta iota zeta.
  destruct (NewBundle E (str "sbuild-shub") w) as [bundle [e|]]; [discriminate|].
  match goal with |- context [getManifest E ?c ?v] =>
    destruct (getManifest E c v) as [[[cp1 [e1|]] w1]|] end; try discriminate.
  destruct (fetchImage E cp1 w1) as [[[cp2 [e2|]] w2]|] eqn:Hf; try discriminate.
  apply fetchImage_bundle in Hf. destruct Hf as [Hb Hne].
  destruct (getLocalPacker E (tmpfile cp2) (b cp2) w2) as [lp err].
  intros H. injection H as <- _ _. simpl. now rewrite Hb.
Qed.

(** ** The properties of the orchestrator *)

(** C3, as the code has it. On an orchestrator that holds a workspace, as
    one does on which [Get] has succeeded, [CleanUp] returns, removes the
    workspace and all below it and nothing else, and a second call
    returns and changes nothing. *)
Theorem CleanUp_idempotent cp w :
  (b cp <> None \/ exists cp0 rcp w0, Get E cp0 rcp w0 = Ret (cp, None, w)) ->
  exists bundle w1,
    b cp = Some bundle /\
    CleanUp cp w = Ret w1 /\
    CleanUp cp w1 = Ret w1 /\
    files w1 = RemoveAll (Path bundle) (files w) /\
    requests w1 = requests w /\ fatals w1 = fatals w.
Proof.
  intros H.
  assert (Hb : b cp <> None).
  { destruct H as [H | (cp0 & rcp & w0 & H)]; [exact H|].
    eapply Get_success_bundle. exact H. }
  destruct (b cp) as [bundle|] eqn:Eb; [|congruence].
  exists bundle, (mkWorld (RemoveAll (Path bundle) (files w)) (requests w) (fatals w)).
  unfold CleanUp. rewrite Eb. simpl. rewrite RemoveAll_twice. repeat split.
Qed.

(** C4. For a locator that is not of the default registry the manifest
    lookup returns a nil error and changes neither the orchestrator, whose
    manifest stays as it was, nor the world: no request is made. *)
Theorem getManifest_custom_registry cp w :
  defaultReg (srcURI cp) = false ->
  getManifest E cp w = Ret (cp, None, w).
Proof. intros H. unfold getManifest. now rewrite H. Qed.

Lemma occurs_prefix (sub s : gostring) :
  is_prefix sub s = true -> occurs sub s = true.
Proof. intros H. destruct s; simpl; rewrite H; reflexivity. Qed.

(** C5, as the code has it. When the registry responds, the manifest lookup
    returns an error that carries the status text exactly when the status
    code is not 200; for a response of code 404 whose status text begins
    with the code the message contains 404; a response of code 200 goes on
    to the decoding of the manifest. *)
Theorem getManifest_status cp w (req : Request) (res : Response) :
  defaultReg (srcURI cp) = true ->
  registry (srcURI cp) = defaultRegistry ->
  NewRequest E (str "GET") (manifestAddress (srcURI cp)) = inl req ->
  Do E (withUserAgent E req) = inl res ->
  (StatusCode res <> 200%Z ->
   getManifest E cp w = Ret (cp, Some (Status res), logRequest w (Address req))) /\
  (StatusCode res = 200%Z ->
   getManifest E cp w = decodeManifest E cp res (logRequest w (Address req))) /\
  (StatusCode res = 404%Z -> status_of_code res ->
   exists msg,
     getManifest E cp w = Ret (cp, Some msg, logRequest w (Address req)) /\
     occurs (str "404") msg = true).
Proof.
  intros Hd Hr Hreq Hdo.
  rewrite getManifest_default by assumption. rewrite Hreq, Hdo.
  split; [|split].
  - intros Hc. apply Z.eqb_neq in Hc. now rewrite Hc.
  - intros Hc. apply Z.eqb_eq in Hc. now rewrite Hc.
  - intros Hc Hs. exists (Status res). rewrite Hc. split; [reflexivity|].
    unfold status_of_code in Hs. rewrite Hc in Hs. now apply occurs_prefix.
Qed.

(** C6. When the download stream has been copied to the temporary file,
    the fetch compares the count of bytes written with the declared
    length: if they differ it returns the size error and the file stays
    with what was written; if they agree it returns a nil error, the
    file holds as many bytes as declared, and its path is recorded. *)
Theorem fetchImage_size_check cp w (bundle : Bundle) (m : shubAPIResponse)
        (name : gostring) (resp : Response) :
  b cp = Some bundle ->
  manifest cp = Some m ->
  TempFile E w (Path bundle) (str "shub-container") = inl name ->
  httpGet E (Image m) = inl resp ->
  BodyErr resp = None ->
  exists w',
    read_file (files w') name = Some (File (Body resp)) /\
    (Z.of_nat (length (Body resp)) <> ContentLength resp ->
     fetchImage E cp w
     = Ret (cp, Some (sizeError (ContentLength resp)
                                (Z.of_nat (length (Body resp)))), w')) /\
    (Z.of_nat (length (Body resp)) = ContentLength resp ->
     exists cp',
       fetchImage E cp w = Ret (cp', None, w') /\ tmpfile cp' = name /\
       manifest cp' = manifest cp /\ b cp' = b cp /\ srcURI cp' = srcURI cp).
Proof.
  intros Hb Hm Ht Hg He.
  exists (mkWorld (write_file (write_file (files w) name []) name (Body resp))
                  (requests w ++ [Image m]) (fatals w)).
  split; [apply read_write|].
  unfold fetchImage. rewrite Hb. cbv [deref bind]. rewrite Ht, Hm, Hg, He. simpl.
  split.
  - intros Hne. apply Z.eqb_neq in Hne. now rewrite Hne.
  - intros Heq. apply Z.eqb_eq in Heq. rewrite Heq. simpl.
    eexists. split; [reflexivity|]. simpl. auto.
Qed.

(** C10. For a recipe whose reference parses as one of a custom registry,
    on an orchestrator without a manifest: once the workspace is there the
    manifest lookup returns a nil error and leaves the manifest nil; once
    the temporary file is there too, [Get] panics on the nil manifest in
    the fetch; and in no case does [Get] return a nil error. *)
Theorem Get_custom_registry cp rcp w (uri : ShubURI) :
  manifest cp = None ->
  ShubParseReference (str "//" ++ map_get (Header rcp) (str "from"))
  = Ret (uri, None) ->
  defaultReg uri = false ->
  (forall bundle name,
     NewBundle E (str "sbuild-shub") w = (Some bundle, None) ->
     let cp1 := mkPacker rcp uri (tmpfile cp) None (Some bundle) (localPacker cp) in
     let w1 := mkWorld (files w ++ [(Path bundle, Dir)]) (requests w) (fatals w) in
     getManifest E cp1 w1 = Ret (cp1, None, w1) /\
     (TempFile E w1 (Path bundle) (str "shub-container") = inl name ->
      Get E cp rcp w = Panic (NilDereference cp_manifest))) /\
  (forall cp' w', Get E cp rcp w <> Ret (cp', None, w')).
Proof.
  intros Hm Hp Hd. split.
  - intros bundle name Hb cp1 w1. split.
    + unfold getManifest. subst cp1. simpl. now rewrite Hd.
    + intros Ht. unfold Get. rewrite Hp. cbv [bind]. cbv beta iota zeta.
      rewrite Hb, Hm. unfold getManifest. simpl srcURI. rewrite Hd.
      cbv [negb bind]. unfold fetchImage. simpl b. cbv [deref bind].
      fold w1. rewrite Ht. reflexivity.
  - intros cp' w'. unfold Get. rewrite Hp. cbv [bind]. cbv beta iota zeta.
    destruct (NewBundle E (str "sbuild-shub") w) as [bundle [e|]]; [discriminate|].
    rewrite Hm. unfold getManifest. simpl srcURI. rewrite Hd.
    cbv [negb bind]. unfold fetchImage. simpl b.
    destruct bundle as [bundle|]; cbv [deref bind]; [|discriminate].
    match goal with |- context [TempFile E ?a ?c ?d] =>
      destruct (TempFile E a c d) end; discriminate.
Qed.

End Stages.

(** ** The properties at sample inputs *)

(** A whole acquisition in the sample world, and the clean-up after it:
    the workspace and the image in it are gone, the other file stays. *)
Example Get_then_CleanUp :
  exists cp w,
    Get (sampleEnv ok200 wholeImage) (zeroPacker unit) plainRecipe sampleWorld
    = Ret (cp, None, w) /\
    tmpfile cp = sampleTemp /\
    read_file (files w) sampleTemp = Some (File (Body wholeImage)) /\
    exists w1,
      CleanUp cp w = Ret w1 /\
      files w1 = [(str "/tmp/other", File (str "kept"))].
Proof.
  eexists. eexists. split; [vm_compute; reflexivity|].
  split; [reflexivity|]. split; [reflexivity|].
  eexists. split; vm_compute; reflexivity.
Qed.

(** C3, as the specification words it, fails: on an orchestrator on which
    [Get] was never called, [CleanUp] reads the path of a nil bundle. *)
Lemma CleanUp_before_Get :
  CleanUp (zeroPacker unit) emptyWorld = Panic (NilDereference cp_b).
Proof. reflexivity. Qed.

Lemma CleanUp_idempotent_witness :
  b customPacker <> None /\
  exists bundle w1,
    b customPacker = Some bundle /\
    CleanUp customPacker sampleWorld = Ret w1 /\
    CleanUp customPacker w1 = Ret w1 /\
    files w1 = RemoveAll (Path bundle) (files sampleWorld) /\
    requests w1 = requests sampleWorld /\ fatals w1 = fatals sampleWorld.
Proof.
  split; [discriminate|].
  apply (CleanUp_idempotent (sampleEnv ok200 wholeImage)). left. discriminate.
Defined.

Lemma getManifest_custom_registry_witness :
  defaultReg (srcURI customPacker) = false /\
  getManifest (sampleEnv ok200 wholeImage) customPacker emptyWorld
  = Ret (customPacker, None, emptyWorld).
Proof.
  split; [reflexivity|]. apply getManifest_custom_registry. reflexivity.
Defined.

(** C5, as the specification words it, fails: a response of code 201 is a
    success of the 2xx range, and the lookup returns its status text as
    the error instead of decoding the manifest. *)
Lemma created_is_refused :
  (200 <= StatusCode created201 < 300)%Z /\
  getManifest (sampleEnv created201 wholeImage) plainPacker emptyWorld
  = Ret (plainPacker, Some (str "201 Created"),
         logRequest emptyWorld (manifestAddress plain_locator)).
Proof.
  split; [simpl; lia | vm_compute; reflexivity].
Qed.

Lemma getManifest_status_witness :
  defaultReg (srcURI plainPacker) = true /\
  registry (srcURI plainPacker) = defaultRegistry /\
  NewRequest (sampleEnv notFound404 wholeImage) (str "GET")
             (manifestAddress (srcURI plainPacker)) = inl sampleRequest /\
  Do (sampleEnv notFound404 wholeImage)
     (withUserAgent (sampleEnv notFound404 wholeImage) sampleRequest)
  = inl notFound404 /\
  StatusCode notFound404 = 404%Z /\ status_of_code notFound404 /\
  exists msg,
    getManifest (sampleEnv notFound404 wholeImage) plainPacker emptyWorld
    = Ret (plainPacker, Some msg, logRequest emptyWorld (Address sampleRequest)) /\
    occurs (str "404") msg = true.
Proof.
  repeat (split; [reflexivity|]).
  apply (@getManifest_status unit (sampleEnv notFound404 wholeImage) plainPacker
           emptyWorld sampleRequest notFound404);
    reflexivity.
Defined.

Lemma fetchImage_size_check_witness :
  b readyPacker = Some sampleBundle /\
  manifest readyPacker = Some sampleManifest /\
  TempFile (sampleEnv ok200 shortImage) emptyWorld (Path sampleBundle)
           (str "shub-container") = inl sampleTemp /\
  httpGet (sampleEnv ok200 shortImage) (Image sampleManifest) = inl shortImage /\
  BodyErr shortImage = None /\
  exists w',
    read_file (files w') sampleTemp = Some (File (Body shortImage)) /\
    (Z.of_nat (length (Body shortImage)) <> ContentLength shortImage ->
     fetchImage (sampleEnv ok200 shortImage) readyPacker emptyWorld
     = Ret (readyPacker,
            Some (sizeError (ContentLength shortImage)
                            (Z.of_nat (length (Body shortImage)))), w')) /\
    (Z.of_nat (length (Body shortImage)) = ContentLength shortImage ->
     exists cp',
       fetchImage (sampleEnv ok200 shortImage) readyPacker emptyWorld
       = Ret (cp', None, w') /\ tmpfile cp' = sampleTemp /\
       manifest cp' = manifest readyPacker /\ b cp' = b readyPacker /\
       srcURI cp' = srcURI readyPacker).
Proof.
  repeat (split; [reflexivity|]).
  apply (@fetchImage_size_check unit (sampleEnv ok200 shortImage) readyPacker
           emptyWorld sampleBundle sampleManifest sampleTemp shortImage);
    reflexivity.
Defined.

(** The two downloads of the specification: 80 bytes announced as 100 give
    the size error, 100 bytes announced as 100 give the file. *)
Example fetch_short_image :
  exists w',
    fetchImage (sampleEnv ok200 shortImage) readyPacker emptyWorld
    = Ret (readyPacker, Some (sizeError 100 80), w') /\
    read_file (files w') sampleTemp = Some (File (repeat "x"%char 80)).
Proof. eexists. split; vm_compute; reflexivity. Qed.

Example fetch_whole_image :
  exists cp' w',
    fetchImage (sampleEnv ok200 wholeImage) readyPacker emptyWorld
    = Ret (cp', None, w') /\
    tmpfile cp' = sampleTemp /\
    read_file (files w') sampleTemp = Some (File (repeat "x"%char 100)).
Proof. eexists. eexists. split; [vm_compute; reflexivity|]. split; reflexivity. Qed.

Lemma Get_custom_registry_witness :
  manifest (zeroPacker unit) = None /\
  ShubParseReference (str "//" ++ map_get (Header customRecipe) (str "from"))
  = Ret (full_locator hex32, None) /\
  defaultReg (full_locator hex32) = false /\
  Get (sampleEnv ok200 wholeImage) (zeroPacker unit) customRecipe emptyWorld
  = Panic (NilDereference cp_manifest) /\
  (forall cp' w',
     Get (sampleEnv ok200 wholeImage) (zeroPacker unit) customRecipe emptyWorld
     <> Ret (cp', None, w')).
Proof.
  assert (Hp : ShubParseReference
                 (str "//" ++ map_get (Header customRecipe) (str "from"))
               = Ret (full_locator hex32, None)) by (vm_compute; reflexivity).
  split; [reflexivity|]. split; [exact Hp|]. split; [reflexivity|].
  destruct (@Get_custom_registry unit (sampleEnv ok200 wholeImage)
              (zeroPacker unit) customRecipe emptyWorld (full_locator hex32)
              eq_refl Hp eq_refl) as [Hstage Hnever].
  split; [|exact Hnever].
  destruct (Hstage sampleBundle sampleTemp eq_refl) as [_ Hpanic].
  apply Hpanic. reflexivity.
Defined.

(** ** More on the parser *)

(** A successful parse, taken apart. *)
Lemma parse_success_pieces (src : gostring) (uri : ShubURI) :
  ShubParseReference src = Ret (uri, None) ->
  exists reg n cont tg dg,
    src = str "//" ++ reg ++ (n ++ ["/"%char]) ++ cont ++ tg ++ dg /\
    (reg = [] \/ exists r, reg = r ++ ["/"%char] /\ run registryChars 1 64 r) /\
    run nameChars 1 39 n /\
    run containerChars 1 64 cont /\
    (tg = [] \/ exists t, tg = ":"%char :: t /\ run containerChars 1 64 t) /\
    (dg = [] \/ exists d, dg = "@"%char :: d /\ run digestChars 32 32 d) /\
    uri = locator reg (n ++ ["/"%char]) cont tg dg.
Proof.
  intros H. assert (Hs : shub_shape src) by (eapply parse_success_shape; exact H).
  apply parse_shape in Hs.
  destruct Hs as (reg & n & cont & tg & dg & Hsrc & Hreg & Hn & Hcont & Htg & Hdg & Hp).
  rewrite Hp in H. injection H as <-.
  exists reg, n, cont, tg, dg. repeat (split; [assumption|]). reflexivity.
Qed.

(** The input of a successful parse, written from its result. *)
Lemma parse_source (src : gostring) (uri : ShubURI) :
  ShubParseReference src = Ret (uri, None) ->
  src = str "//" ++ (if defaultReg uri then [] else registry uri)
          ++ user uri ++ container uri ++ tag uri ++ digest uri.
Proof.
  intros H. apply parse_success_pieces in H.
  destruct H as (reg & n & cont & tg & dg & -> & _ & _ & _ & _ & _ & ->).
  destruct reg; reflexivity.
Qed.

(** X1. The parser panics on the empty string and on nothing else: there
    the sanity check compares two empty strings and [src[2:]] is out of
    range. *)
Theorem parse_panics_only_on_empty (src : gostring) (p : panic) :
  ShubParseReference src = Panic p <-> src = [] /\ p = SliceBounds.
Proof.
  split.
  - intros H. destruct src as [|c src].
    + rewrite parse_empty in H. injection H as <-. now split.
    + destruct (shape_dec (c :: src)) as [Hs | Hs].
      * apply parse_shape in Hs.
        destruct Hs as (reg & n & cont & tg & dg & _ & _ & _ & _ & _ & _ & Hp).
        rewrite Hp in H. discriminate.
      * rewrite (parse_invalid Hs) in H by discriminate. discriminate.
  - intros [-> ->]. reflexivity.
Qed.

(** X2. Two references that parse to the same locator are the same
    string. *)
Theorem parse_injective (src1 src2 : gostring) (uri : ShubURI) :
  ShubParseReference src1 = Ret (uri, None) ->
  ShubParseReference src2 = Ret (uri, None) ->
  src1 = src2.
Proof.
  intros H1 H2. apply parse_source in H1. apply parse_source in H2. congruence.
Qed.

Lemma parse_injective_witness :
  ShubParseReference plain_reference = Ret (plain_locator, None) /\
  plain_reference = plain_reference.
Proof.
  assert (H : ShubParseReference plain_reference = Ret (plain_locator, None))
    by (vm_compute; reflexivity).
  split; [exact H | eapply parse_injective; exact H].
Defined.

(** X3. The string of a locator of a custom registry, with the prefix put
    back, parses to that locator again. *)
Theorem parse_String_custom (src : gostring) (uri : ShubURI) :
  ShubParseReference src = Ret (uri, None) ->
  defaultReg uri = false ->
  ShubParseReference (str "//" ++ String uri) = Ret (uri, None).
Proof.
  intros H Hd. pose proof (parse_source _ H) as Hsrc. rewrite Hd in Hsrc.
  unfold String. now rewrite <- Hsrc.
Qed.

Lemma parse_String_custom_witness :
  ShubParseReference (full_reference hex32) = Ret (full_locator hex32, None) /\
  defaultReg (full_locator hex32) = false /\
  ShubParseReference (str "//" ++ String (full_locator hex32))
  = Ret (full_locator hex32, None).
Proof.
  assert (H : ShubParseReference (full_reference hex32)
              = Ret (full_locator hex32, None)) by (vm_compute; reflexivity).
  split; [exact H|]. split; [reflexivity|].
  eapply parse_String_custom; [exact H | reflexivity].
Defined.

(** The text before the first slash of a string lies in whatever ends at a
    slash of it. *)
Lemma before_first_slash (a b u v : gostring) :
  u ++ "/"%char :: v = a ++ "/"%char :: b -> ~ In "/"%char a ->
  exists a', u = a ++ a'.
Proof.
  revert u. induction a as [|x a IH]; intros u H Hn.
  - now exists u.
  - destruct u as [|y u]; simpl in H.
    + injection H as <- _. exfalso. apply Hn. now left.
    + injection H as -> H. destruct (IH u H) as (a' & ->).
      * intros Hin. apply Hn. now right.
      * now exists a'.
Qed.

(** No string that begins with the default registry has the shape of the
    pattern: its first segment has a dot. *)
Lemma default_registry_no_shape (rest : gostring) :
  ~ shub_shape (str "//" ++ defaultRegistry ++ rest).
Proof.
  intros (reg & name & cont & tg & dg & Heq & Hreg & (n & -> & Hn) & _).
  change (str "//" ++ defaultRegistry ++ rest)
    with (str "//" ++ str "singularity-hub.org" ++ "/"%char :: str "api/container/" ++ rest)
    in Heq.
  apply app_inv_head in Heq.
  assert (Hdot : forall cs u a',
            class_mem cs "."%char = false ->
            Forall (fun c => class_mem cs c = true) u ->
            u = str "singularity-hub.org" ++ a' -> False).
  { intros cs u a' Hc Hall ->. rewrite Forall_forall in Hall.
    assert (Hin : In "."%char (str "singularity-hub.org" ++ a'))
      by (apply in_or_app; left; vm_compute; tauto).
    apply Hall in Hin. congruence. }
  assert (Hns : ~ In "/"%char (str "singularity-hub.org")).
  { intros H. vm_compute in H. repeat (destruct H as [H|H]; [discriminate|]). exact H. }
  destruct Hreg as [-> | (r & -> & [_ Hr])].
  - change ([] ++ ?x) with x in Heq. rewrite <- app_assoc in Heq.
    symmetry in Heq.
    destruct (@before_first_slash (str "singularity-hub.org")
                (str "api/container/" ++ rest) n (cont ++ tg ++ dg) Heq Hns)
      as (a' & Ha).
    destruct Hn as [_ Hn]. exact (Hdot nameChars n a' eq_refl Hn Ha).
  - rewrite <- app_assoc in Heq. symmetry in Heq.
    destruct (@before_first_slash (str "singularity-hub.org")
                (str "api/container/" ++ rest) r
                ((n ++ ["/"%char]) ++ cont ++ tg ++ dg) Heq Hns)
      as (a' & Ha).
    exact (Hdot registryChars r a' eq_refl Hr Ha).
Qed.

(** X4. The string of a locator of the default registry, with the prefix
    put back, is not a reference: the parser returns its error for it,
    the default registry having dots. *)
Theorem parse_String_default (src : gostring) (uri : ShubURI) :
  ShubParseReference src = Ret (uri, None) ->
  defaultReg uri = true ->
  ShubParseReference (str "//" ++ String uri)
  = Ret (zeroURI, Some (invalidURI (str "//" ++ String uri))).
Proof.
  intros H Hd. apply parse_success_pieces in H.
  destruct H as (reg & n & cont & tg & dg & _ & _ & _ & _ & _ & _ & ->).
  destruct reg; [|discriminate]. unfold String. simpl registry.
  apply parse_invalid; [apply default_registry_no_shape | discriminate].
Qed.

Lemma parse_String_default_witness :
  ShubParseReference plain_reference = Ret (plain_locator, None) /\
  defaultReg plain_locator = true /\
  ShubParseReference (str "//" ++ String plain_locator)
  = Ret (zeroURI, Some (invalidURI (str "//" ++ String plain_locator))).
Proof.
  assert (H : ShubParseReference plain_reference = Ret (plain_locator, None))
    by (vm_compute; reflexivity).
  split; [exact H|]. split; [reflexivity|].
  eapply parse_String_default; [exact H | reflexivity].
Defined.

Lemma is_prefix_app (a c : gostring) : is_prefix a (a ++ c) = true.
Proof.
  induction a as [|x a IH]; simpl; [reflexivity|].
  now rewrite byte_eqb_refl, IH.
Qed.

(** X5. After a successful parse the locator is marked as of the default
    registry exactly when the reference has one slash after its prefix;
    its registry is then the constant, and otherwise the beginning of the
    reference, 1 to 64 characters and a closing slash. *)
Theorem parse_registry_choice (src : gostring) (uri : ShubURI) :
  ShubParseReference src = Ret (uri, None) ->
  (defaultReg uri = true <-> strings.Count (skipn 2 src) "/" = 1) /\
  (defaultReg uri = true -> registry uri = defaultRegistry) /\
  (defaultReg uri = false ->
   exists r, registry uri = r ++ ["/"%char] /\ run registryChars 1 64 r /\
             is_prefix (registry uri) (skipn 2 src) = true).
Proof.
  intros H. apply parse_success_pieces in H.
  destruct H as (reg & n & cont & tg & dg & -> & Hreg & Hn & Hcont & Htg & Hdg & ->).
  change (skipn 2 (str "//" ++ ?x)) with x.
  assert (Hc : strings.Count (reg ++ (n ++ ["/"%char]) ++ cont ++ tg ++ dg) "/"
               = strings.Count reg "/" + 1) by (apply count_slash; assumption).
  rewrite Hc. destruct Hreg as [-> | (r & -> & Hr)].
  - simpl. split; [split; reflexivity|]. split; [reflexivity | discriminate].
  - assert (Hl : locator (r ++ ["/"%char]) (n ++ ["/"%char]) cont tg dg
                 = mkShubURI (r ++ ["/"%char]) (n ++ ["/"%char]) cont tg dg false)
      by (destruct r; reflexivity).
    rewrite Hl. simpl defaultReg. simpl registry.
    rewrite Count_app. change (strings.Count ["/"%char] "/") with 1.
    split; [split; [discriminate | lia]|]. split; [discriminate|].
    intros _. exists r. split; [reflexivity|]. split; [exact Hr|].
    apply is_prefix_app.
Qed.

Lemma parse_registry_choice_witness :
  ShubParseReference (full_reference hex32) = Ret (full_locator hex32, None) /\
  (defaultReg (full_locator hex32) = true
   <-> strings.Count (skipn 2 (full_reference hex32)) "/" = 1) /\
  (defaultReg (full_locator hex32) = true ->
   registry (full_locator hex32) = defaultRegistry) /\
  (defaultReg (full_locator hex32) = false ->
   exists r, registry (full_locator hex32) = r ++ ["/"%char] /\
             run registryChars 1 64 r /\
             is_prefix (registry (full_locator hex32))
                       (skipn 2 (full_reference hex32)) = true).
Proof.
  assert (H : ShubParseReference (full_reference hex32)
              = Ret (full_locator hex32, None)) by (vm_compute; reflexivity).
  split; [exact H | eapply parse_registry_choice; exact H].
Defined.

(** X6. After a successful parse every field is within its class and its
    length: the user is 1 to 39 name characters and a slash, the container
    1 to 64 container characters, the tag a colon and 1 to 64 container
    characters when there is one, the digest an at-sign and 32 characters
    of [[a-f0-9]] when there is one. *)
Theorem parse_fields (src : gostring) (uri : ShubURI) :
  ShubParseReference src = Ret (uri, None) ->
  (exists n, user uri = n ++ ["/"%char] /\ run nameChars 1 39 n) /\
  run containerChars 1 64 (container uri) /\
  (tag uri = [] \/ exists t, tag uri = ":"%char :: t /\ run containerChars 1 64 t) /\
  (digest uri = [] \/ exists d, digest uri = "@"%char :: d /\ run digestChars 32 32 d).
Proof.
  intros H. apply parse_success_pieces in H.
  destruct H as (reg & n & cont & tg & dg & _ & _ & Hn & Hcont & Htg & Hdg & ->).
  destruct reg; simpl; (split; [now exists n|]); auto.
Qed.

Lemma parse_fields_witness :
  ShubParseReference (full_reference hex32) = Ret (full_locator hex32, None) /\
  (exists n, user (full_locator hex32) = n ++ ["/"%char] /\ run nameChars 1 39 n) /\
  run containerChars 1 64 (container (full_locator hex32)) /\
  (tag (full_locator hex32) = [] \/
   exists t, tag (full_locator hex32) = ":"%char :: t /\ run containerChars 1 64 t) /\
  (digest (full_locator hex32) = [] \/
   exists d, digest (full_locator hex32) = "@"%char :: d /\ run digestChars 32 32 d).
Proof.
  assert (H : ShubParseReference (full_reference hex32)
              = Ret (full_locator hex32, None)) by (vm_compute; reflexivity).
  split; [exact H | eapply parse_fields; exact H].
Defined.

(** X7. A reference that parses is 5 to 269 bytes long. *)
Theorem parse_length (src : gostring) (uri : ShubURI) :
  ShubParseReference src = Ret (uri, None) -> 5 <= length src <= 269.
Proof.
  intros H. apply parse_success_pieces in H.
  destruct H as (reg & n & cont & tg & dg & -> & Hreg & Hn & Hcont & Htg & Hdg & _).
  rewrite !length_app. change (length (str "//")) with 2.
  change (length ["/"%char]) with 1.
  destruct Hn as [Hn _]. destruct Hcont as [Hcont _].
  assert (Hr : length reg <= 65).
  { destruct Hreg as [-> | (r & -> & [Hr _])]; [simpl; lia|].
    rewrite length_app. simpl. lia. }
  assert (Ht : length tg <= 65).
  { destruct Htg as [-> | (t & -> & [Ht _])]; simpl; lia. }
  assert (Hd : length dg <= 33).
  { destruct Hdg as [-> | (d & -> & [Hd _])]; simpl; lia. }
  lia.
Qed.

Lemma parse_length_witness :
  ShubParseReference plain_reference = Ret (plain_locator, None) /\
  5 <= length plain_reference <= 269.
Proof.
  assert (H : ShubParseReference plain_reference = Ret (plain_locator, None))
    by (vm_compute; reflexivity).
  split; [exact H | eapply parse_length; exact H].
Defined.

(** The bounds of X7 are met. *)
Example parse_length_attained :
  (exists uri, ShubParseReference (str "//a/b") = Ret (uri, None)) /\
  (exists uri,
     ShubParseReference
       (str "//" ++ repeat "a"%char 64 ++ str "/" ++ repeat "b"%char 39
          ++ str "/" ++ repeat "c"%char 64 ++ str ":" ++ repeat "d"%char 64
          ++ str "@" ++ repeat "0"%char 32) = Ret (uri, None)) /\
  length (str "//" ++ repeat "a"%char 64 ++ str "/" ++ repeat "b"%char 39
            ++ str "/" ++ repeat "c"%char 64 ++ str ":" ++ repeat "d"%char 64
            ++ str "@" ++ repeat "0"%char 32) = 269.
Proof.
  split; [eexists; vm_compute; reflexivity|].
  split; [eexists; vm_compute; reflexivity | reflexivity].
Qed.

(** ** More on the stages of [Get] *)

Lemma SplitN2_notin (s : gostring) (sep : ascii) :
  ~ In sep s -> strings.SplitN2 s sep = [s].
Proof.
  induction s as [|c s IH]; simpl; intros H; [reflexivity|].
  destruct (byte_eqb sep c) eqn:E.
  - apply byte_eqb_eq in E. subst. exfalso. apply H. now left.
  - rewrite IH; [reflexivity|]. intros Hin. apply H. now right.
Qed.

Lemma read_file_removed (path : gostring) (fs : list (gostring * node))
      (q : gostring) :
  path <> [] -> under path q = true -> read_file (RemoveAll path fs) q = None.
Proof.
  intros Hp Hu. destruct path as [|c path]; [congruence|].
  unfold RemoveAll. induction fs as [|[n x] fs IH]; simpl; [reflexivity|].
  destruct (under (c :: path) n) eqn:En; simpl; [exact IH|].
  destruct (strings.differ q n) eqn:Ed; [exact IH|].
  apply differ_false in Ed. subst. congruence.
Qed.


Section MoreStages.
Variable LP : Type.
Variable E : Env LP.
Implicit Types (cp : ShubConveyorPacker LP) (w : World).

(** What a manifest lookup that returns has kept. *)
Lemma getManifest_keeps cp w cp' (e : option error) w' :
  getManifest E cp w = Ret (cp', e, w') ->
  recipe cp' = recipe cp /\ srcURI cp' = srcURI cp /\ tmpfile cp' = tmpfile cp /\
  b cp' = b cp /\ localPacker cp' = localPacker cp /\
  files w' = files w /\ fatals w' = fatals w /\
  (requests w' = requests w \/ exists a, requests w' = requests w ++ [a]) /\
  (e = None -> defaultReg (srcURI cp) = true -> manifest cp' <> None).
Proof.
  assert (Hclose : forall (x : option error) (c : ShubConveyorPacker LP) (v : World),
    recipe c = recipe cp -> srcURI c = srcURI cp -> tmpfile c = tmpfile cp ->
    b c = b cp -> localPacker c = localPacker cp ->
    files v = files w -> fatals v = fatals w ->
    (requests v = requests w \/ exists a, requests v = requests w ++ [a]) ->
    (x = None -> defaultReg (srcURI cp) = true -> manifest c <> None) ->
    Ret (c, x, v) = Ret (cp', e, w') ->
    recipe cp' = recipe cp /\ srcURI cp' = srcURI cp /\ tmpfile cp' = tmpfile cp /\
    b cp' = b cp /\ localPacker cp' = localPacker cp /\
    files w' = files w /\ fatals w' = fatals w /\
    (requests w' = requests w \/ exists a, requests w' = requests w ++ [a]) /\
    (e = None -> defaultReg (srcURI cp) = true -> manifest cp' <> None)).
  { intros x c v H1 H2 H3 H4 H5 H6 H7 H8 H9 H. injection H as <- <- <-.
    repeat (split; [assumption|]). assumption. }
  unfold getManifest. cbv zeta.
  destruct (defaultReg (srcURI cp)) eqn:Hd; cbv [negb].
  2:{ apply Hclose; auto. intros _ Hf. discriminate Hf. }
  destruct (index (strings.Split (str "www." ++ String (srcURI cp)) "/") 0)
    as [host|]; [|discriminate].
  destruct (index (strings.SplitN2 (str "www." ++ String (srcURI cp)) "/") 1)
    as [path|]; [|discriminate].
  cbv [bind].
  destruct (NewRequest E (str "GET") (URL_String (mkURL (str "https") host path)))
    as [req|err].
  2:{ apply Hclose; auto. discriminate. }
  simpl Address.
  match goal with |- context [Do E ?r] => destruct (Do E r) as [res|err] end.
  2:{ apply Hclose; auto; [right; eexists; reflexivity | discriminate]. }
  destruct (StatusCode res =? 200)%Z; cbv iota.
  2:{ apply Hclose; auto; [right; eexists; reflexivity | discriminate]. }
  unfold decodeManifest. destruct (BodyErr res).
  { apply Hclose; auto; [right; eexists; reflexivity | discriminate]. }
  destruct (jsonUnmarshal E (Body res) (manifest cp)) as [m err].
  simpl manifest. destruct m as [m|]; cbv [deref bind]; [|discriminate].
  apply Hclose; auto; [right; eexists; reflexivity | intros _ _; discriminate].
Qed.

(** What a fetch that returns has done. *)
Lemma fetchImage_returns cp w cp' (e : option error) w' :
  fetchImage E cp w = Ret (cp', e, w') ->
  exists bundle m name,
    b cp = Some bundle /\ manifest cp = Some m /\
    TempFile E w (Path bundle) (str "shub-container") = inl name /\
    requests w' = requests w ++ [Image m] /\ fatals w' = fatals w /\
    (exists data, read_file (files w') name = Some (File data)) /\
    recipe cp' = recipe cp /\ srcURI cp' = srcURI cp /\
    manifest cp' = manifest cp /\ b cp' = b cp /\
    localPacker cp' = localPacker cp /\
    (e <> None -> cp' = cp) /\
    (e = None -> tmpfile cp' = name).
Proof.
  unfold fetchImage. destruct (b cp) as [bundle|] eqn:Hb; [|discriminate].
  cbv [deref bind].
  destruct (TempFile E w (Path bundle) (str "shub-container")) as [name|err] eqn:Ht;
    [|discriminate].
  destruct (manifest cp) as [m|] eqn:Hm; [|discriminate].
  intros H. exists bundle, m, name.
  split; [reflexivity|]. split; [reflexivity|]. split; [exact Ht|].
  assert (Hfile : forall fs data, exists d,
            read_file (write_file fs name data) name = Some (File d))
    by (intros fs data; eexists; apply read_write).
  destruct (httpGet E (Image m)) as [resp|err];
    [destruct (BodyErr resp);
       [|destruct (negb (Z.of_nat (length (Body resp)) =? ContentLength resp)%Z)]|];
    injection H as <- <- <-; simpl;
    (split; [reflexivity|]); (split; [reflexivity|]); (split; [apply Hfile|]);
    repeat match goal with |- _ /\ _ => split end;
    try reflexivity; try assumption;
    try (intros Hx; discriminate Hx); try (intros Hx; congruence).
Qed.

(** X8. For a reference parsed as of the default registry, the lookup asks
    [http.NewRequest] for a GET of
    [https://www.singularity-hub.org/api/container/] followed by the
    reference without its prefix; when that fails it returns the error
    and no request has been made. *)
Theorem getManifest_bad_request cp w (src : gostring) (e : error) :
  ShubParseReference src = Ret (srcURI cp, None) ->
  defaultReg (srcURI cp) = true ->
  NewRequest E (str "GET")
    (str "https://www.singularity-hub.org/api/container/" ++ skipn 2 src)
  = inr e ->
  getManifest E cp w = Ret (cp, Some e, w).
Proof.
  intros Hp Hd Hreq.
  pose proof (parse_default_registry _ Hp Hd) as Hr.
  pose proof (parse_source _ Hp) as Hsrc. rewrite Hd in Hsrc.
  rewrite Hsrc in Hreq. change (skipn 2 (str "//" ++ ?x)) with x in Hreq.
  rewrite getManifest_default by assumption.
  unfold manifestAddress. simpl app in Hreq |- *. now rewrite Hreq.
Qed.

(** X9. For a reference parsed as of the default registry, when the
    request is made and the client fails, the lookup returns the error of
    the client; the address of the request has been asked for once and
    the orchestrator is as it was. *)
Theorem getManifest_network_error cp w (src : gostring) (req : Request)
        (e : error) :
  ShubParseReference src = Ret (srcURI cp, None) ->
  defaultReg (srcURI cp) = true ->
  NewRequest E (str "GET")
    (str "https://www.singularity-hub.org/api/container/" ++ skipn 2 src)
  = inl req ->
  Do E (withUserAgent E req) = inr e ->
  getManifest E cp w = Ret (cp, Some e, logRequest w (Address req)).
Proof.
  intros Hp Hd Hreq Hdo.
  pose proof (parse_default_registry _ Hp Hd) as Hr.
  pose proof (parse_source _ Hp) as Hsrc. rewrite Hd in Hsrc.
  rewrite Hsrc in Hreq. change (skipn 2 (str "//" ++ ?x)) with x in Hreq.
  rewrite getManifest_default by assumption.
  unfold manifestAddress. simpl app in Hreq |- *. now rewrite Hreq, Hdo.
Qed.

(** X10. When the registry answers 200, the body is read and
    [json.Unmarshal] leaves a manifest behind, the lookup stores that
    manifest and returns the error of [json.Unmarshal], nil or not. *)
Theorem getManifest_decoded cp w (req : Request) (res : Response)
        (m : shubAPIResponse) (err : option error) :
  defaultReg (srcURI cp) = true ->
  registry (srcURI cp) = defaultRegistry ->
  NewRequest E (str "GET") (manifestAddress (srcURI cp)) = inl req ->
  Do E (withUserAgent E req) = inl res ->
  StatusCode res = 200%Z ->
  BodyErr res = None ->
  jsonUnmarshal E (Body res) (manifest cp) = (Some m, err) ->
  getManifest E cp w
  = Ret (mkPacker (recipe cp) (srcURI cp) (tmpfile cp) (Some m) (b cp)
                  (localPacker cp), err, logRequest w (Address req)).
Proof.
  intros Hd Hr Hreq Hdo Hc Hb Hj.
  rewrite getManifest_default by assumption. rewrite Hreq, Hdo, Hc.
  unfold decodeManifest. now rewrite Hb, Hj.
Qed.

(** X11. When the registry answers 200 and [json.Unmarshal] leaves the
    manifest pointer nil, as it does for a body that is not JSON on an
    orchestrator without a manifest, the lookup panics on the manifest in
    its log line, before the error of [json.Unmarshal] is looked at. *)
Theorem getManifest_decode_panics cp w (req : Request) (res : Response)
        (err : option error) :
  defaultReg (srcURI cp) = true ->
  registry (srcURI cp) = defaultRegistry ->
  NewRequest E (str "GET") (manifestAddress (srcURI cp)) = inl req ->
  Do E (withUserAgent E req) = inl res ->
  StatusCode res = 200%Z ->
  BodyErr res = None ->
  jsonUnmarshal E (Body res) (manifest cp) = (None, err) ->
  getManifest E cp w = Panic (NilDereference cp_manifest).
Proof.
  intros Hd Hr Hreq Hdo Hc Hb Hj.
  rewrite getManifest_default by assumption. rewrite Hreq, Hdo, Hc.
  unfold decodeManifest. now rewrite Hb, Hj.
Qed.

(** X12. A lookup that returns has made at most one request, has touched
    neither the files nor the log of fatal messages, and has changed of
    the orchestrator nothing but the manifest; when it returns a nil
    error for a locator of the default registry, the manifest is there. *)
Theorem getManifest_frame cp w cp' (e : option error) w' :
  getManifest E cp w = Ret (cp', e, w') ->
  recipe cp' = recipe cp /\ srcURI cp' = srcURI cp /\ tmpfile cp' = tmpfile cp /\
  b cp' = b cp /\ localPacker cp' = localPacker cp /\
  files w' = files w /\ fatals w' = fatals w /\
  (requests w' = requests w \/ exists a, requests w' = requests w ++ [a]) /\
  (e = None -> defaultReg (srcURI cp) = true -> manifest cp' <> None).
Proof. apply getManifest_keeps. Qed.

(** X13. For a locator marked as of the default registry whose string has
    no slash, the lookup panics: the address has no second half. *)
Theorem getManifest_no_slash cp w :
  defaultReg (srcURI cp) = true ->
  ~ In "/"%char (String (srcURI cp)) ->
  getManifest E cp w = Panic IndexRange.
Proof.
  intros Hd Hn. unfold getManifest. rewrite Hd. cbv [negb]. cbv zeta.
  assert (Hw : ~ In "/"%char (str "www." ++ String (srcURI cp))).
  { apply notin_app; [|exact Hn].
    intros H. vm_compute in H. repeat (destruct H as [H|H]; [discriminate|]).
    exact H. }
  rewrite Split_notin, SplitN2_notin by exact Hw. reflexivity.
Qed.

(** X14. When the temporary file cannot be created the fetch panics on
    the nil file in its log line; the error of [ioutil.TempFile] is never
    returned. *)
Theorem fetchImage_no_tempfile cp w (bundle : Bundle) (e : error) :
  b cp = Some bundle ->
  TempFile E w (Path bundle) (str "shub-container") = inr e ->
  fetchImage E cp w = Panic (NilDereference the_tmpfile).
Proof.
  intros Hb Ht. unfold fetchImage. rewrite Hb. cbv [deref bind].
  now rewrite Ht.
Qed.

(** X15. A fetch that returns has created the temporary file, has asked
    once for the image of the manifest and for nothing else, and has
    changed of the orchestrator nothing but [tmpfile]: on an error not
    even that, on a nil error [tmpfile] is the name of the file. *)
Theorem fetchImage_frame cp w cp' (e : option error) w' :
  fetchImage E cp w = Ret (cp', e, w') ->
  exists bundle m name,
    b cp = Some bundle /\ manifest cp = Some m /\
    TempFile E w (Path bundle) (str "shub-container") = inl name /\
    requests w' = requests w ++ [Image m] /\ fatals w' = fatals w /\
    (exists data, read_file (files w') name = Some (File data)) /\
    recipe cp' = recipe cp /\ srcURI cp' = srcURI cp /\
    manifest cp' = manifest cp /\ b cp' = b cp /\
    localPacker cp' = localPacker cp /\
    (e <> None -> cp' = cp) /\
    (e = None -> tmpfile cp' = name).
Proof. apply fetchImage_returns. Qed.

(** X16. When the GET of the image fails the fetch returns its error and
    leaves the empty temporary file behind. *)
Theorem fetchImage_get_error cp w (bundle : Bundle) (m : shubAPIResponse)
        (name : gostring) (e : error) :
  b cp = Some bundle ->
  manifest cp = Some m ->
  TempFile E w (Path bundle) (str "shub-container") = inl name ->
  httpGet E (Image m) = inr e ->
  exists w',
    fetchImage E cp w = Ret (cp, Some e, w') /\
    read_file (files w') name = Some (File []).
Proof.
  intros Hb Hm Ht Hg. unfold fetchImage. rewrite Hb. cbv [deref bind].
  rewrite Ht, Hm, Hg. eexists. split; [reflexivity|]. simpl. apply read_write.
Qed.

(** X17. When the stream of the image breaks the fetch returns the error
    of the stream without comparing sizes, and leaves the file with what
    came before the break. *)
Theorem fetchImage_stream_error cp w (bundle : Bundle) (m : shubAPIResponse)
        (name : gostring) (resp : Response) (e : error) :
  b cp = Some bundle ->
  manifest cp = Some m ->
  TempFile E w (Path bundle) (str "shub-container") = inl name ->
  httpGet E (Image m) = inl resp ->
  BodyErr resp = Some e ->
  exists w',
    fetchImage E cp w = Ret (cp, Some e, w') /\
    read_file (files w') name = Some (File (Body resp)).
Proof.
  intros Hb Hm Ht Hg He. unfold fetchImage. rewrite Hb. cbv [deref bind].
  rewrite Ht, Hm, Hg, He. eexists. split; [reflexivity|]. simpl. apply read_write.
Qed.

(** X18. A [Get] that returns a nil error has stored the recipe and the
    locator parsed from its [from] header, holds a workspace and a
    manifest, and [tmpfile] names a file that exists; nothing was given
    to [sylog.Fatalf]. *)
Theorem Get_success cp rcp w cp' w' :
  Get E cp rcp w = Ret (cp', None, w') ->
  recipe cp' = rcp /\
  ShubParseReference (str "//" ++ map_get (Header rcp) (str "from"))
  = Ret (srcURI cp', None) /\
  b cp' <> None /\ manifest cp' <> None /\
  (exists data, read_file (files w') (tmpfile cp') = Some (File data)) /\
  fatals w' = fatals w.
Proof.
  unfold Get.
  destruct (ShubParseReference (str "//" ++ map_get (Header rcp) (str "from")))
    as [[uri [e|]]|]; cbv [bind]; try discriminate.
  cbv beta iota zeta.
  destruct (NewBundle E (str "sbuild-shub") w) as [bundle [e|]]; [discriminate|].
  match goal with |- context [getManifest E ?c ?v] =>
    destruct (getManifest E c v) as [[[cp1 [e1|]] w1]|] eqn:Hg end;
    try discriminate.
  destruct (fetchImage E cp1 w1) as [[[cp2 [e2|]] w2]|] eqn:Hf; try discriminate.
  apply getManifest_keeps in Hg.
  destruct Hg as (Hrec & Huri & _ & _ & _ & _ & Hfat & _ & _).
  apply fetchImage_returns in Hf.
  destruct Hf as (bd & m & name & Hb & Hm & _ & _ & Hfat2 & Hfile & Hrec2 & Huri2
                  & Hm2 & Hb2 & _ & _ & Hname).
  destruct (getLocalPacker E (tmpfile cp2) (b cp2) w2) as [lp err].
  intros H. injection H as <- _ <-. simpl.
  rewrite Hrec2, Hrec, Huri2, Huri, Hb2, Hb, Hm2, Hm, (Hname eq_refl), Hfat2, Hfat.
  simpl. repeat split; try discriminate; try assumption.
  destruct bundle; reflexivity.
Qed.


(** X20. After a [Get] that returns a nil error the downloaded file is
    there; when it lies in the workspace, [CleanUp] returns and the file
    is gone. *)
Theorem Get_then_CleanUp_removes_image cp rcp w cp' w' (bundle : Bundle) :
  Get E cp rcp w = Ret (cp', None, w') ->
  b cp' = Some bundle ->
  Path bundle <> [] ->
  under (Path bundle) (tmpfile cp') = true ->
  (exists data, read_file (files w') (tmpfile cp') = Some (File data)) /\
  exists w1,
    CleanUp cp' w' = Ret w1 /\ read_file (files w1) (tmpfile cp') = None.
Proof.
  intros HG Hb Hp Hu. split.
  - unfold Get in HG.
    destruct (ShubParseReference (str "//" ++ map_get (Header rcp) (str "from")))
      as [[uri [e|]]|]; cbv [bind] in HG; try discriminate.
    cbv beta iota zeta in HG.
    destruct (NewBundle E (str "sbuild-shub") w) as [bd [e|]]; [discriminate|].
    match type of HG with context [getManifest E ?c ?v] =>
      destruct (getManifest E c v) as [[[cp1 [e1|]] w1]|] end;
      try discriminate.
    destruct (fetchImage E cp1 w1) as [[[cp2 [e2|]] w2]|] eqn:Hf; try discriminate.
    apply fetchImage_returns in Hf.
    destruct Hf as (bd' & m & name & _ & _ & _ & _ & _ & Hfile & _ & _ & _ & _
                    & _ & _ & Hname).
    destruct (getLocalPacker E (tmpfile cp2) (b cp2) w2) as [lp err].
    injection HG as <- _ <-. simpl. now rewrite (Hname eq_refl).
  - unfold CleanUp. rewrite Hb. cbv [deref bind].
    eexists. split; [reflexivity|]. simpl. now apply read_file_removed.
Qed.

End MoreStages.

(** ** The further properties at sample inputs *)

Lemma getManifest_bad_request_witness :
  ShubParseReference plain_reference = Ret (srcURI plainPacker, None) /\
  defaultReg (srcURI plainPacker) = true /\
  NewRequest noRequestEnv (str "GET")
    (str "https://www.singularity-hub.org/api/container/"
       ++ skipn 2 plain_reference) = inr (str "invalid URL") /\
  getManifest noRequestEnv plainPacker emptyWorld
  = Ret (plainPacker, Some (str "invalid URL"), emptyWorld).
Proof.
  assert (H : ShubParseReference plain_reference = Ret (srcURI plainPacker, None))
    by (vm_compute; reflexivity).
  split; [exact H|]. split; [reflexivity|]. split; [reflexivity|].
  eapply getManifest_bad_request; [exact H | reflexivity | reflexivity].
Defined.

Lemma getManifest_network_error_witness :
  ShubParseReference plain_reference = Ret (srcURI plainPacker, None) /\
  defaultReg (srcURI plainPacker) = true /\
  NewRequest offlineEnv (str "GET")
    (str "https://www.singularity-hub.org/api/container/"
       ++ skipn 2 plain_reference) = inl sampleRequest /\
  Do offlineEnv (withUserAgent offlineEnv sampleRequest) = inr (str "timeout") /\
  getManifest offlineEnv plainPacker emptyWorld
  = Ret (plainPacker, Some (str "timeout"),
         logRequest emptyWorld (Address sampleRequest)).
Proof.
  assert (H : ShubParseReference plain_reference = Ret (srcURI plainPacker, None))
    by (vm_compute; reflexivity).
  split; [exact H|]. split; [reflexivity|]. split; [reflexivity|].
  split; [reflexivity|].
  eapply getManifest_network_error; [exact H | reflexivity | reflexivity | reflexivity].
Defined.

Lemma getManifest_decoded_witness :
  defaultReg (srcURI plainPacker) = true /\
  registry (srcURI plainPacker) = defaultRegistry /\
  NewRequest (sampleEnv ok200 wholeImage) (str "GET")
             (manifestAddress (srcURI plainPacker)) = inl sampleRequest /\
  Do (sampleEnv ok200 wholeImage)
     (withUserAgent (sampleEnv ok200 wholeImage) sampleRequest) = inl ok200 /\
  StatusCode ok200 = 200%Z /\ BodyErr ok200 = None /\
  jsonUnmarshal (sampleEnv ok200 wholeImage) (Body ok200) (manifest plainPacker)
  = (Some sampleManifest, None) /\
  getManifest (sampleEnv ok200 wholeImage) plainPacker emptyWorld
  = Ret (mkPacker (recipe plainPacker) (srcURI plainPacker) (tmpfile plainPacker)
                  (Some sampleManifest) (b plainPacker) (localPacker plainPacker),
         None, logRequest emptyWorld (Address sampleRequest)).
Proof.
  repeat (split; [reflexivity|]).
  apply (@getManifest_decoded unit (sampleEnv ok200 wholeImage) plainPacker
           emptyWorld sampleRequest ok200 sampleManifest None); reflexivity.
Defined.

Lemma getManifest_decode_panics_witness :
  defaultReg (srcURI plainPacker) = true /\
  registry (srcURI plainPacker) = defaultRegistry /\
  NewRequest garbledEnv (str "GET") (manifestAddress (srcURI plainPacker))
  = inl sampleRequest /\
  Do garbledEnv (withUserAgent garbledEnv sampleRequest) = inl ok200 /\
  StatusCode ok200 = 200%Z /\ BodyErr ok200 = None /\
  jsonUnmarshal garbledEnv (Body ok200) (manifest plainPacker)
  = (None, Some (str "invalid character")) /\
  getManifest garbledEnv plainPacker emptyWorld
  = Panic (NilDereference cp_manifest).
Proof.
  repeat (split; [reflexivity|]).
  apply (@getManifest_decode_panics unit garbledEnv plainPacker emptyWorld
           sampleRequest ok200 (Some (str "invalid character"))); reflexivity.
Defined.

Lemma getManifest_frame_witness :
  getManifest (sampleEnv notFound404 wholeImage) plainPacker emptyWorld
  = Ret (plainPacker, Some (str "404 Not Found"),
         logRequest emptyWorld (manifestAddress plain_locator)) /\
  files (logRequest emptyWorld (manifestAddress plain_locator)) = files emptyWorld /\
  fatals (logRequest emptyWorld (manifestAddress plain_locator)) = fatals emptyWorld.
Proof.
  assert (H : getManifest (sampleEnv notFound404 wholeImage) plainPacker emptyWorld
              = Ret (plainPacker, Some (str "404 Not Found"),
                     logRequest emptyWorld (manifestAddress plain_locator)))
    by (vm_compute; reflexivity).
  split; [exact H|].
  destruct (getManifest_frame _ _ _ H) as (_ & _ & _ & _ & _ & Hf & Hl & _).
  split; [exact Hf | exact Hl].
Defined.

Lemma getManifest_no_slash_witness :
  defaultReg (srcURI barePacker) = true /\
  ~ In "/"%char (String (srcURI barePacker)) /\
  getManifest (sampleEnv ok200 wholeImage) barePacker emptyWorld
  = Panic IndexRange.
Proof.
  assert (Hn : ~ In "/"%char (String (srcURI barePacker))).
  { intros H. vm_compute in H. repeat (destruct H as [H|H]; [discriminate|]).
    exact H. }
  split; [reflexivity|]. split; [exact Hn|].
  apply getManifest_no_slash; [reflexivity | exact Hn].
Defined.

Lemma fetchImage_no_tempfile_witness :
  b readyPacker = Some sampleBundle /\
  TempFile fullDiskEnv emptyWorld (Path sampleBundle) (str "shub-container")
  = inr (str "no space left on device") /\
  fetchImage fullDiskEnv readyPacker emptyWorld
  = Panic (NilDereference the_tmpfile).
Proof.
  split; [reflexivity|]. split; [reflexivity|].
  apply (@fetchImage_no_tempfile unit fullDiskEnv readyPacker emptyWorld
           sampleBundle (str "no space left on device")); reflexivity.
Defined.

Lemma fetchImage_frame_witness :
  fetchImage (sampleEnv ok200 shortImage) readyPacker emptyWorld
  = Ret (readyPacker, Some (sizeError 100 80),
         mkWorld [(sampleTemp, File (Body shortImage))]
                 [Image sampleManifest] []) /\
  exists bundle m name,
    b readyPacker = Some bundle /\ manifest readyPacker = Some m /\
    TempFile (sampleEnv ok200 shortImage) emptyWorld (Path bundle)
             (str "shub-container") = inl name /\
    requests (mkWorld [(sampleTemp, File (Body shortImage))]
                      [Image sampleManifest] [])
    = requests emptyWorld ++ [Image m] /\
    fatals (mkWorld [(sampleTemp, File (Body shortImage))]
                    [Image sampleManifest] []) = fatals emptyWorld /\
    (exists data,
       read_file (files (mkWorld [(sampleTemp, File (Body shortImage))]
                                 [Image sampleManifest] [])) name
       = Some (File data)) /\
    recipe readyPacker = recipe readyPacker /\
    srcURI readyPacker = srcURI readyPacker /\
    manifest readyPacker = manifest readyPacker /\
    b readyPacker = b readyPacker /\
    localPacker readyPacker = localPacker readyPacker /\
    (Some (sizeError 100 80) <> None -> readyPacker = readyPacker) /\
    (Some (sizeError 100 80) = None -> tmpfile readyPacker = name).
Proof.
  assert (H : fetchImage (sampleEnv ok200 shortImage) readyPacker emptyWorld
              = Ret (readyPacker, Some (sizeError 100 80),
                     mkWorld [(sampleTemp, File (Body shortImage))]
                             [Image sampleManifest] []))
    by (vm_compute; reflexivity).
  split; [exact H | exact (fetchImage_frame _ _ _ H)].
Defined.

Lemma fetchImage_get_error_witness :
  b readyPacker = Some sampleBundle /\
  manifest readyPacker = Some sampleManifest /\
  TempFile offlineEnv emptyWorld (Path sampleBundle) (str "shub-container")
  = inl sampleTemp /\
  httpGet offlineEnv (Image sampleManifest) = inr (str "timeout") /\
  exists w',
    fetchImage offlineEnv readyPacker emptyWorld
    = Ret (readyPacker, Some (str "timeout"), w') /\
    read_file (files w') sampleTemp = Some (File []).
Proof.
  repeat (split; [reflexivity|]).
  apply (@fetchImage_get_error unit offlineEnv readyPacker emptyWorld
           sampleBundle sampleManifest sampleTemp (str "timeout")); reflexivity.
Defined.

Lemma fetchImage_stream_error_witness :
  b readyPacker = Some sampleBundle /\
  manifest readyPacker = Some sampleManifest /\
  TempFile (sampleEnv ok200 brokenImage) emptyWorld (Path sampleBundle)
           (str "shub-container") = inl sampleTemp /\
  httpGet (sampleEnv ok200 brokenImage) (Image sampleManifest) = inl brokenImage /\
  BodyErr brokenImage = Some (str "unexpected EOF") /\
  exists w',
    fetchImage (sampleEnv ok200 brokenImage) readyPacker emptyWorld
    = Ret (readyPacker, Some (str "unexpected EOF"), w') /\
    read_file (files w') sampleTemp = Some (File (Body brokenImage)).
Proof.
  repeat (split; [reflexivity|]).
  apply (@fetchImage_stream_error unit (sampleEnv ok200 brokenImage) readyPacker
           emptyWorld sampleBundle sampleManifest sampleTemp brokenImage
           (str "unexpected EOF")); reflexivity.
Defined.

Lemma Get_success_witness :
  Get (sampleEnv ok200 wholeImage) (zeroPacker unit) plainRecipe emptyWorld
  = Ret (fetchedPacker, None, fetchedWorld) /\
  recipe fetchedPacker = plainRecipe /\
  ShubParseReference (str "//" ++ map_get (Header plainRecipe) (str "from"))
  = Ret (srcURI fetchedPacker, None) /\
  b fetchedPacker <> None /\ manifest fetchedPacker <> None /\
  (exists data,
     read_file (files fetchedWorld) (tmpfile fetchedPacker) = Some (File data)) /\
  fatals fetchedWorld = fatals emptyWorld.
Proof.
  assert (H : Get (sampleEnv ok200 wholeImage) (zeroPacker unit) plainRecipe
                  emptyWorld = Ret (fetchedPacker, None, fetchedWorld))
    by (vm_compute; reflexivity).
  split; [exact H | exact (Get_success _ _ _ _ H)].
Defined.


Lemma Get_then_CleanUp_removes_image_witness :
  Get (sampleEnv ok200 wholeImage) (zeroPacker unit) plainRecipe emptyWorld
  = Ret (fetchedPacker, None, fetchedWorld) /\
  b fetchedPacker = Some sampleBundle /\ Path sampleBundle <> [] /\
  under (Path sampleBundle) (tmpfile fetchedPacker) = true /\
  (exists data,
     read_file (files fetchedWorld) (tmpfile fetchedPacker) = Some (File data)) /\
  exists w1,
    CleanUp fetchedPacker fetchedWorld = Ret w1 /\
    read_file (files w1) (tmpfile fetchedPacker) = None.
Proof.
  assert (H : Get (sampleEnv ok200 wholeImage) (zeroPacker unit) plainRecipe
                  emptyWorld = Ret (fetchedPacker, None, fetchedWorld))
    by (vm_compute; reflexivity).
  split; [exact H|]. split; [reflexivity|]. split; [discriminate|].
  split; [vm_compute; reflexivity|].
  eapply Get_then_CleanUp_removes_image;
    [exact H | reflexivity | discriminate | vm_compute; reflexivity].
Defined.

(** ** What cannot go wrong *)

(** X21. The anchors leave no room for a partial match: what
    [FindString] finds for the pattern of the parser is the whole input
    or the empty string. *)
Theorem FindString_whole_or_empty (src : gostring) :
  FindString shubRegex src = src \/ FindString shubRegex src = [].
Proof.
  rewrite FindString_shub. destruct (MatchString shubRegex src); auto.
Qed.

Lemma parse_prefixed_returns (x : gostring) :
  exists uri err, ShubParseReference (str "//" ++ x) = Ret (uri, err).
Proof.
  destruct (shape_dec (str "//" ++ x)) as [Hs | Hs].
  - apply parse_shape in Hs.
    destruct Hs as (reg & n & cont & tg & dg & _ & _ & _ & _ & _ & _ & Hp).
    rewrite Hp. eauto.
  - rewrite (parse_invalid Hs) by discriminate. eauto.
Qed.

Section Panics.
Variable LP : Type.
Variable E : Env LP.
Implicit Types (cp : ShubConveyorPacker LP) (w : World).

(** The only panic of a lookup for a parsed locator is the nil manifest
    after the decoding. *)
Lemma getManifest_panics cp w (src : gostring) (p : panic) :
  ShubParseReference src = Ret (srcURI cp, None) ->
  getManifest E cp w = Panic p -> p = NilDereference cp_manifest.
Proof.
  intros Hp. destruct (defaultReg (srcURI cp)) eqn:Hd.
  - pose proof (parse_default_registry _ Hp Hd) as Hr.
    rewrite getManifest_default by assumption.
    destruct (NewRequest E (str "GET") (manifestAddress (srcURI cp)));
      [|discriminate].
    destruct (Do E (withUserAgent E r)) as [res|]; [|discriminate].
    destruct (negb (StatusCode res =? 200)%Z); [discriminate|].
    unfold decodeManifest. destruct (BodyErr res); [discriminate|].
    destruct (jsonUnmarshal E (Body res) (manifest cp)) as [m err].
    simpl manifest. destruct m; cbv [deref bind]; [discriminate|].
    intros H. now injection H as <-.
  - unfold getManifest. rewrite Hd. discriminate.
Qed.

Lemma fetchImage_panics cp w (p : panic) :
  fetchImage E cp w = Panic p -> exists q, p = NilDereference q.
Proof.
  unfold fetchImage. destruct (b cp) as [bundle|]; cbv [deref bind].
  2:{ intros H. injection H as <-. eauto. }
  destruct (TempFile E w (Path bundle) (str "shub-container")) as [name|err].
  2:{ intros H. injection H as <-. eauto. }
  destruct (manifest cp) as [m|].
  2:{ intros H. injection H as <-. eauto. }
  destruct (httpGet E (Image m)) as [resp|err]; [|discriminate].
  destruct (BodyErr resp); [discriminate|].
  destruct (negb (Z.of_nat (length (Body resp)) =? ContentLength resp)%Z);
    discriminate.
Qed.

(** X22. For the locator of a successful parse the lookup never panics
    on an index: the address always has its two halves.  Its one panic is
    the nil manifest after the decoding. *)
Theorem getManifest_index_safe cp w (src : gostring) (p : panic) :
  ShubParseReference src = Ret (srcURI cp, None) ->
  getManifest E cp w = Panic p -> p = NilDereference cp_manifest.
Proof. apply getManifest_panics. Qed.

(** X23. [Get] never panics on a slice or an index, whatever the recipe:
    the reference it builds begins with the prefix, so the parser
    returns; if [Get] panics, it is on a nil pointer. *)
Theorem Get_panics_on_nil_only cp rcp w (p : panic) :
  Get E cp rcp w = Panic p -> exists q, p = NilDereference q.
Proof.
  unfold Get.
  destruct (parse_prefixed_returns (map_get (Header rcp) (str "from")))
    as (uri & err & Hp).
  rewrite Hp. cbv [bind]. cbv beta iota zeta.
  destruct err as [e|]; [discriminate|].
  destruct (NewBundle E (str "sbuild-shub") w) as [bundle [e|]]; [discriminate|].
  match goal with |- context [getManifest E ?c ?v] =>
    destruct (getManifest E c v) as [[[cp1 [e1|]] w1]|q] eqn:Hg end.
  - discriminate.
  - destruct (fetchImage E cp1 w1) as [[[cp2 [e2|]] w2]|q] eqn:Hf.
    + discriminate.
    + destruct (getLocalPacker E (tmpfile cp2) (b cp2) w2). discriminate.
    + intros H. injection H as <-. eapply fetchImage_panics. exact Hf.
  - intros H. injection H as <-. exists cp_manifest.
    eapply getManifest_panics; [|exact Hg]. simpl srcURI. exact Hp.
Qed.

End Panics.

Lemma getManifest_index_safe_witness :
  ShubParseReference plain_reference = Ret (srcURI plainPacker, None) /\
  getManifest garbledEnv plainPacker emptyWorld
  = Panic (NilDereference cp_manifest) /\
  NilDereference cp_manifest = NilDereference cp_manifest.
Proof.
  assert (H : ShubParseReference plain_reference = Ret (srcURI plainPacker, None))
    by (vm_compute; reflexivity).
  assert (G : getManifest garbledEnv plainPacker emptyWorld
              = Panic (NilDereference cp_manifest)) by (vm_compute; reflexivity).
  split; [exact H|]. split; [exact G|].
  eapply getManifest_index_safe; [exact H | exact G].
Defined.

Lemma Get_panics_on_nil_only_witness :
  Get garbledEnv (zeroPacker unit) plainRecipe emptyWorld
  = Panic (NilDereference cp_manifest) /\
  exists q, NilDereference cp_manifest = NilDereference q.
Proof.
  assert (G : Get garbledEnv (zeroPacker unit) plainRecipe emptyWorld
              = Panic (NilDereference cp_manifest)) by (vm_compute; reflexivity).
  split; [exact G | eapply Get_panics_on_nil_only; exact G].
Defined.
